(** * Search and text-analysis core of the travel organiser

    Shallow embedding of [src/src/lib/enhanced-search.ts]
    ([EnhancedSearchService]), of the text analyser in the NLP service
    ([NLPService], [src/unnamed/part_011]), of the enrichment call of
    [AIService.enhancedSearch] and of its caller in
    [UniversalSearch.handleSearch].

    Strings are modelled as [String.string] over ASCII characters, so the
    JavaScript [length] is [String.length] and [toLowerCase] maps [A-Z] to
    [a-z].  Scores (JavaScript numbers in [0,1]) are modelled as rationals.
    The results of the third-party libraries (compromise's part-of-speech
    tagging, Fuse.js's fuzzy matcher, the record store, the network) are
    inputs of the model: Section variables or explicit arguments. *)

From Stdlib Require Import String Ascii List Bool ZArith QArith Lia Lqa Permutation Sorted.
Import ListNotations.
Open Scope string_scope.

(* ------------------------------------------------------------------ *)
(** ** JavaScript string primitives *)

Module JS.

(** [String.prototype.toLowerCase] on ASCII text. *)
Definition lower_char (c : ascii) : ascii :=
  let n := nat_of_ascii c in
  if Nat.leb 65 n && Nat.leb n 90 then ascii_of_nat (n + 32)%nat else c.

Fixpoint toLowerCase (s : string) : string :=
  match s with
  | EmptyString => EmptyString
  | String c s' => String (lower_char c) (toLowerCase s')
  end.

(** [s.includes(k)]: [k] occurs as a contiguous substring of [s]
    (the empty string occurs everywhere). *)
Fixpoint includes (s k : string) : bool :=
  prefix k s || match s with
                | EmptyString => false
                | String _ s' => includes s' k
                end.

(** The ASCII white-space characters removed by [String.prototype.trim]. *)
Definition is_ws (c : ascii) : bool :=
  let n := nat_of_ascii c in
  Nat.eqb n 32 || Nat.eqb n 9 || Nat.eqb n 10 || Nat.eqb n 11
  || Nat.eqb n 12 || Nat.eqb n 13.

Fixpoint trimStart (s : string) : string :=
  match s with
  | EmptyString => EmptyString
  | String c s' => if is_ws c then trimStart s' else s
  end.

Fixpoint rev_str (s acc : string) : string :=
  match s with
  | EmptyString => acc
  | String c s' => rev_str s' (String c acc)
  end.

Definition trimEnd (s : string) : string :=
  rev_str (trimStart (rev_str s EmptyString)) EmptyString.

Definition trim (s : string) : string := trimEnd (trimStart s).

(** [s.substring(0, n)] for [n >= 0]. *)
Definition substring0 (n : nat) (s : string) : string := substring 0 n s.

(** [s.split(' ')]: split on every single space, keeping empty pieces. *)
Fixpoint split_char_aux (sep : ascii) (s cur : string) : list string :=
  match s with
  | EmptyString => [cur]
  | String c s' =>
      if Ascii.eqb c sep then cur :: split_char_aux sep s' EmptyString
      else split_char_aux sep s' (cur ++ String c EmptyString)
  end.

Definition split_char (sep : ascii) (s : string) : list string :=
  split_char_aux sep s EmptyString.

(** [s.split(/[.!?]+/)]: a maximal run of sentence terminators is one
    separator. [in_run] records that the previous character was one. *)
Definition is_terminator (c : ascii) : bool :=
  Ascii.eqb c "." || Ascii.eqb c "!" || Ascii.eqb c "?".

Fixpoint split_sentences_aux (s cur : string) (in_run : bool) : list string :=
  match s with
  | EmptyString => [cur]
  | String c s' =>
      if is_terminator c then
        if in_run then split_sentences_aux s' cur true
        else cur :: split_sentences_aux s' EmptyString true
      else split_sentences_aux s' (cur ++ String c EmptyString) false
  end.

Definition split_sentences (s : string) : list string :=
  split_sentences_aux s EmptyString false.

(** [a || b] on an optional string field: [undefined] and [""] are falsy. *)
Definition or_str (o : option string) (d : string) : string :=
  match o with
  | Some s => if String.eqb s "" then d else s
  | None => d
  end.

End JS.

(* ------------------------------------------------------------------ *)
(** ** Records of the search index ([SearchableItem]) *)

Record SearchableItem := mkItem {
  id : string;
  title : option string;
  name : option string;
  description : option string;
  content : option string;
  location : option string;
  tags : list string;
  _type : string;
  searchableText : option string
}.

(** [EnhancedSearchResult]: an item with its score, matched fields and
    snippet. *)
Record EnhancedSearchResult := mkResult {
  r_item : SearchableItem;
  _score : Q;
  _matchedFields : list string;
  _snippet : option string
}.

(* ------------------------------------------------------------------ *)
(** ** [EnhancedSearchService.generateSnippet] *)

Definition snippet_content (item : SearchableItem) : string :=
  JS.or_str (description item)
    (JS.or_str (content item)
       (JS.or_str (title item) (JS.or_str (name item) ""))).

(** [queryWords.filter(word => sentence.toLowerCase().includes(word)).length] *)
Definition count_matches (queryWords : list string) (sentence : string) : nat :=
  length (filter (fun w => JS.includes (JS.toLowerCase sentence) w) queryWords).

(** The [forEach] over the sentences, with state [(bestSentence, maxMatches)]. *)
Definition best_sentence (content query : string) : string :=
  let queryWords := JS.split_char " " (JS.toLowerCase query) in
  fst (fold_left
         (fun (acc : string * nat) sentence =>
            let matches := count_matches queryWords sentence in
            if Nat.ltb (snd acc) matches then (sentence, matches) else acc)
         (JS.split_sentences content) ("", 0%nat)).

Definition generateSnippet (item : SearchableItem) (query : string) : string :=
  let bestSentence := best_sentence (snippet_content item) query in
  JS.substring0 150 (JS.trim bestSentence)
    ++ (if Nat.ltb 150 (String.length bestSentence) then "..." else "").

(* ------------------------------------------------------------------ *)
(** ** [NLPService]: keyword tables *)

Module NLP.

(** [extractTopics]: four keyword lists, paired with the label at the
    same index of [categories]. *)
Definition topicTable : list (string * list string) :=
  [ ("travel", ["travel"; "trip"; "vacation"; "journey"; "adventure"; "explore"; "visit"; "tour"]);
    ("food", ["food"; "restaurant"; "meal"; "cuisine"; "dining"; "eat"; "taste"; "cook"]);
    ("culture", ["culture"; "museum"; "temple"; "church"; "monument"; "art"; "history"]);
    ("nature", ["nature"; "mountain"; "beach"; "forest"; "park"; "hiking"; "outdoor"]) ].

(** [categorizeContent]'s [categoryMap], in [Object.entries] order. *)
Definition categoryMap : list (string * list string) :=
  [ ("food", ["food"; "restaurant"; "meal"; "eat"; "cook"; "taste"; "cuisine"; "dish"]);
    ("travel", ["travel"; "trip"; "vacation"; "journey"; "flight"; "hotel"; "booking"]);
    ("culture", ["museum"; "temple"; "church"; "monument"; "art"; "history"; "culture"]);
    ("nature", ["nature"; "mountain"; "beach"; "forest"; "park"; "hiking"; "outdoor"]);
    ("adventure", ["adventure"; "explore"; "expedition"; "trekking"; "climbing"; "extreme"]);
    ("entertainment", ["movie"; "show"; "concert"; "festival"; "party"; "music"; "dance"]);
    ("shopping", ["shop"; "buy"; "purchase"; "market"; "store"; "mall"; "souvenir"]);
    ("transport", ["transport"; "bus"; "train"; "taxi"; "uber"; "drive"; "walk"]) ].

(** The controlled vocabulary of the spec. *)
Definition vocabulary : list string :=
  ["travel"; "food"; "culture"; "nature"; "adventure"; "entertainment";
   "shopping"; "transport"].

(** [keywords.some(keyword => text.includes(keyword))] *)
Definition some_keyword (text : string) (keywords : list string) : bool :=
  existsb (fun kw => JS.includes text kw) keywords.

(** A JavaScript [Set<string>] as its insertion-ordered list of elements. *)
Definition set_add (x : string) (s : list string) : list string :=
  if existsb (String.eqb x) s then s else s ++ [x].

Definition set_add_all (xs : list string) (s : list string) : list string :=
  fold_left (fun acc x => set_add x acc) xs s.

(** [extractTopics]: [doc.text()] is the analysed text itself. *)
Definition extractTopics (docText : string) : list string :=
  let text := JS.toLowerCase docText in
  set_add_all
    (map fst (filter (fun e => some_keyword text (snd e)) topicTable)) [].

Definition categorizeContent (docText : string) : list string :=
  let text := JS.toLowerCase docText in
  map fst (filter (fun e => some_keyword text (snd e)) categoryMap).

(** [extractFilters]'s [typeKeywords], in [Object.entries] order. *)
Definition typeKeywords : list (string * string) :=
  [ ("temple", "culture"); ("restaurant", "food"); ("museum", "culture");
    ("hotel", "accommodation"); ("flight", "transport") ].

Record Amount := mkAmount { amin : option Z; amax : option Z }.

Record Filters := mkFilters {
  f_type : option string;
  f_location : option string;
  f_person : option string;
  f_dateRange : option string;   (* the [start] ISO string *)
  f_category : option string;
  f_amount : option Amount
}.

Record ExtractedEntities := mkEntities {
  people : list string;
  places : list string;
  topics : list string;
  categories : list string
}.

Record SearchQuery := mkQuery {
  originalQuery : string;
  entities : ExtractedEntities;
  searchTerms : list string;
  filters : Filters
}.

Section Analyser.

(** What the compromise library reports for a text: the texts of its
    noun, adjective, person and place matches. *)
Variable pos_nouns pos_adjectives pos_people pos_places : string -> list string.
(** [new Date()] shifted back 7 days, and set to day 1, as ISO strings. *)
Variable iso_last_week iso_month_start : string.

Definition longer_than_1 (s : string) : bool := Nat.ltb 1 (String.length s).

Definition extractPeople (text : string) : list string :=
  filter longer_than_1 (pos_people text).

Definition extractPlaces (text : string) : list string :=
  filter longer_than_1 (pos_places text).

Definition extractEntities (text : string) : ExtractedEntities :=
  mkEntities (extractPeople text) (extractPlaces text)
             (extractTopics text) (categorizeContent text).

Definition extractSearchTerms (text : string) : list string :=
  let longer_than_2 := fun s => Nat.ltb 2 (String.length s) in
  set_add_all
    (map JS.toLowerCase (filter longer_than_2 (pos_adjectives text)))
    (set_add_all (map JS.toLowerCase (filter longer_than_2 (pos_nouns text))) []).

Definition extractFilters (query : string) : Filters :=
  let text := JS.toLowerCase query in
  let location := match extractPlaces query with p :: _ => Some p | [] => None end in
  let person := match extractPeople query with p :: _ => Some p | [] => None end in
  let amount1 :=
    if JS.includes text "expensive" || JS.includes text "costly"
    then Some (mkAmount (Some 50%Z) None) else None in
  let amount :=
    if JS.includes text "cheap" || JS.includes text "budget"
    then Some (mkAmount None (Some 20%Z)) else amount1 in
  let date1 := if JS.includes text "last week" then Some iso_last_week else None in
  let date := if JS.includes text "this month" then Some iso_month_start else date1 in
  let type_ :=
    fold_left (fun acc kt => if JS.includes text (fst kt) then Some (snd kt) else acc)
              typeKeywords None in
  mkFilters type_ location person date None amount.

Definition parseSearchQuery (query : string) : SearchQuery :=
  mkQuery query (extractEntities query) (extractSearchTerms query)
          (extractFilters query).

(** [generateTags(text, type)]; [type] is [None] when not supplied. *)
Definition qualifying_noun (s : string) : bool :=
  Nat.ltb 2 (String.length s) && Nat.ltb (String.length s) 20.

Definition tag_sequence (text : string) (type_ : option string) : list string :=
  map JS.toLowerCase (filter qualifying_noun (pos_nouns text))
  ++ extractTopics text
  ++ match type_ with
     | Some t => if String.eqb t "" then [] else [t]
     | None => []
     end
  ++ categorizeContent text.

Definition generateTags (text : string) (type_ : option string) : list string :=
  firstn 10 (set_add_all (tag_sequence text type_) []).

End Analyser.

End NLP.

(* ------------------------------------------------------------------ *)
(** ** [EnhancedSearchService]: index and retrieval *)

Module Search.

Definition stores : list string :=
  ["travelPins"; "people"; "journalEntries"; "expenses";
   "checklistItems"; "learningEntries"; "foodEntries"; "gearItems"].

(** [indexUpdateInterval = 5 * 60 * 1000] milliseconds. *)
Definition indexUpdateInterval : Z := (5 * 60 * 1000)%Z.

(** A JavaScript [Map<string, V>] as its insertion-ordered association
    list; [set] on a present key replaces the value in place. *)
Definition map_get {V} (k : string) (m : list (string * V)) : option V :=
  match find (fun e => String.eqb (fst e) k) m with
  | Some e => Some (snd e)
  | None => None
  end.

Fixpoint map_set {V} (k : string) (v : V) (m : list (string * V)) : list (string * V) :=
  match m with
  | [] => [(k, v)]
  | (k', v') :: m' =>
      if String.eqb k' k then (k, v) :: m' else (k', v') :: map_set k v m'
  end.

Definition map_values {V} (m : list (string * V)) : list V := map snd m.

(** The index state of the service: [fuseInstances] (one fuzzy matcher
    per collection, represented by the documents it was built over) and
    [lastIndexUpdate]. The FlexSearch [searchIndex] is left out: its
    results are only logged and never reach the result map. *)
Record IndexState := mkState {
  fuseInstances : list (string * list SearchableItem);
  lastIndexUpdate : Z
}.

(** [Array.prototype.join]. *)
Fixpoint join (sep : string) (l : list string) : string :=
  match l with
  | [] => ""
  | [x] => x
  | x :: l' => x ++ sep ++ join sep l'
  end.

Definition createSearchableText (item : SearchableItem) : string :=
  let parts := app [JS.or_str (title item) ""; JS.or_str (name item) "";
                    JS.or_str (description item) ""; JS.or_str (content item) "";
                    JS.or_str (location item) ""] (tags item) in
  JS.toLowerCase (join " " (filter (fun part => negb (String.eqb part "")) parts)).

(** [{ ...item, _type: storeName, searchableText: ... }] *)
Definition processItem (storeName : string) (item : SearchableItem) : SearchableItem :=
  mkItem (id item) (title item) (name item) (description item) (content item)
         (location item) (tags item) storeName (Some (createSearchableText item)).

Section Build.

(** Outcome of [await database.getAll(storeName)]: the records, or [None]
    when the read throws. *)
Variable db : string -> option (list SearchableItem).
(** [Date.now()] when the build ends. *)
Variable now : Z.

(** One iteration of the [for] loop: the [try] block, whose [catch] only
    logs, so a failed read leaves the state as it is. *)
Definition load_store (storeName : string) (st : IndexState) : IndexState :=
  match db storeName with
  | Some items =>
      mkState (map_set storeName (map (processItem storeName) items) (fuseInstances st))
              (lastIndexUpdate st)
  | None => st
  end.

(** [buildSearchIndex] as the sequence of its atomic steps. Every step
    but the first starts right after an [await database.getAll]: control
    returns to the event loop before it, so other tasks run between two
    steps. *)
Definition build_steps : list (IndexState -> IndexState) :=
  (fun st => mkState [] (lastIndexUpdate st))          (* fuseInstances.clear() *)
  :: app (map load_store stores)
         [fun st => mkState (fuseInstances st) now].     (* lastIndexUpdate = Date.now() *)

Definition run_steps (steps : list (IndexState -> IndexState)) (st : IndexState) : IndexState :=
  fold_left (fun s f => f s) steps st.

Definition buildSearchIndex (st : IndexState) : IndexState := run_steps build_steps st.

(** The states a concurrent reader can observe while a single build is in
    progress, no other build having started: after the first [k] steps, for
    [k = 1 .. 8] (one per awaited read). *)
Definition state_at_await (k : nat) (st : IndexState) : IndexState :=
  run_steps (firstn k build_steps) st.

End Build.

(** What Fuse.js returns for one hit ([includeScore], [includeMatches]). *)
Record FuseResult := mkFuseResult {
  fr_item : SearchableItem;
  fr_score : option Q;
  fr_matches : option (list (option string))   (* the [key] of each match *)
}.

Record SearchOptions := mkOptions {
  o_modules : option (list string);
  o_limit : option Z;
  o_threshold : option Q
}.

Definition noOptions : SearchOptions := mkOptions None None None.

Definition key_of (r : EnhancedSearchResult) : string :=
  _type (r_item r) ++ "-" ++ id (r_item r).

Definition Qltb (x y : Q) : bool := negb (Qle_bool y x).

(** [!modules || modules.includes(m)] *)
Definition module_selected (modules : option (list string)) (m : string) : bool :=
  match modules with
  | None => true
  | Some ms => existsb (String.eqb m) ms
  end.

(** [1 - (result.score || 0)] *)
Definition fuzzy_score (fr : FuseResult) : Q :=
  1 - match fr_score fr with Some s => s | None => 0 end.

(** The entry the fuzzy tier stores for a hit. *)
Definition fuzzy_result (query : string) (fr : FuseResult) : EnhancedSearchResult :=
  mkResult (fr_item fr) (fuzzy_score fr * (4 # 5))
           (match fr_matches fr with
            | Some ms => map (fun k => JS.or_str k "") ms
            | None => []
            end)
           (Some (generateSnippet (fr_item fr) query)).

(** The body of [fuseResults.forEach] for collection [moduleType]. *)
Definition fuzzy_step (query : string) (threshold : Q) (moduleType : string)
    (results : list (string * EnhancedSearchResult)) (fr : FuseResult)
    : list (string * EnhancedSearchResult) :=
  let key := moduleType ++ "-" ++ id (fr_item fr) in
  let score := fuzzy_score fr in
  if Qle_bool threshold score &&
     match map_get key results with
     | None => true
     | Some old => Qltb (_score old) score
     end
  then map_set key (fuzzy_result query fr) results
  else results.

(** The body of [nlpResults.forEach] (also the deduplication loop of
    [semanticSearch]): keep the entry with the larger score. *)
Definition merge_step (results : list (string * EnhancedSearchResult))
    (item : EnhancedSearchResult) : list (string * EnhancedSearchResult) :=
  let key := key_of item in
  match map_get key results with
  | None => map_set key item results
  | Some old => if Qltb (_score old) (_score item) then map_set key item results
                else results
  end.

(** A stable insertion sort: [x] is placed before the first [y] with
    [before x y]. *)
Fixpoint insert_by {A} (before : A -> A -> bool) (x : A) (l : list A) : list A :=
  match l with
  | [] => [x]
  | y :: l' => if before x y then x :: l else y :: insert_by before x l'
  end.

Definition sort_by {A} (before : A -> A -> bool) (l : list A) : list A :=
  fold_left (fun acc x => insert_by before x acc) l [].

(** [sort((a, b) => b._score - a._score)]: stable, by descending score. *)
Definition sort_desc (l : list EnhancedSearchResult) : list EnhancedSearchResult :=
  sort_by (fun x y => Qltb (_score y) (_score x)) l.

(** Fuse.js's [search(query, { limit })] over the documents of one
    instance: every document is scored by the matcher ([None] when it does
    not match under the instance's internal threshold 0.4), the hits are
    sorted by ascending score (ties in document order) and cut to [limit]
    when [limit > -1]. The per-document scoring is an input. *)
Section Fuse.
Variable fuse_match : SearchableItem -> string -> option (Q * list (option string)).

Definition fuse_hits (docs : list SearchableItem) (query : string) : list FuseResult :=
  flat_map (fun d => match fuse_match d query with
                     | Some (sc, ms) => [mkFuseResult d (Some sc) (Some ms)]
                     | None => []
                     end) docs.

Definition fr_sc (fr : FuseResult) : Q :=
  match fr_score fr with Some sc => sc | None => 0 end.

Definition fuse_search (docs : list SearchableItem) (query : string) (limit : Z)
    : list FuseResult :=
  let sorted := sort_by (fun a b => Qltb (fr_sc a) (fr_sc b)) (fuse_hits docs query) in
  if (-1 <? limit)%Z then firstn (Z.to_nat limit) sorted else sorted.

End Fuse.

(** [Array.prototype.slice(0, limit)] for an integral [limit]: a negative
    end counts from the end of the array. *)
Definition slice0 {A} (limit : Z) (l : list A) : list A :=
  if (0 <=? limit)%Z then firstn (Z.to_nat limit) l
  else firstn (Z.to_nat (Z.of_nat (length l) + limit)) l.

(** The state monad with failure of the retrieval code: [None] is a call
    that does not return (the recursion below has no base case when the
    search terms never run out). *)
Definition M (A : Type) : Type := IndexState -> option (A * IndexState).

Definition ret {A} (a : A) : M A := fun st => Some (a, st).

Definition bind {A B} (m : M A) (k : A -> M B) : M B :=
  fun st => match m st with
            | Some (a, st') => k a st'
            | None => None
            end.

Definition get : M IndexState := fun st => Some (st, st).
Definition put (st : IndexState) : M unit := fun _ => Some (tt, st).
Definition diverge {A} : M A := fun _ => None.

Notation "x <- m ;; k" := (bind m (fun x => k))
  (at level 61, m at next level, right associativity).

Section Retrieval.

(** Fuse.js's scoring of one document against a query. *)
Variable fuse_match : SearchableItem -> string -> option (Q * list (option string)).
Variable pos_nouns pos_adjectives pos_people pos_places : string -> list string.
Variable iso_last_week iso_month_start : string.
Variable db : string -> option (list SearchableItem).
(** [Date.now()] during the call. *)
Variable now : Z.

Definition parse (query : string) : NLP.SearchQuery :=
  NLP.parseSearchQuery pos_nouns pos_adjectives pos_people pos_places
    iso_last_week iso_month_start query.

(** [if (Date.now() - this.lastIndexUpdate > this.indexUpdateInterval)
    await this.buildSearchIndex()] *)
Definition refreshed (st : IndexState) : IndexState :=
  if (indexUpdateInterval <? now - lastIndexUpdate st)%Z
  then buildSearchIndex db now st else st.

Definition refresh_index : M unit := st <- get ;; put (refreshed st).

(** Tier 2: the loop over [this.fuseInstances]. *)
Definition fuzzy_tier (query : string) (modules : option (list string)) (limit : Z)
    (threshold : Q) (instances : list (string * list SearchableItem))
    : list (string * EnhancedSearchResult) :=
  fold_left
    (fun results inst =>
       if module_selected modules (fst inst)
       then fold_left (fuzzy_step query threshold (fst inst))
                      (fuse_search fuse_match (snd inst) query limit) results
       else results)
    instances [].

Definition scale_tag (factor : Q) (tag : string) (r : EnhancedSearchResult)
    : EnhancedSearchResult :=
  mkResult (r_item r) (_score r * factor) (app (_matchedFields r) [tag]) (_snippet r).

Definition searchWithNLP (srch : string -> SearchOptions -> M (list EnhancedSearchResult))
    (parsedQuery : NLP.SearchQuery) (modules : option (list string))
    : M (list EnhancedSearchResult) :=
  match NLP.searchTerms parsedQuery with
  | [] => ret []
  | terms =>
      basicResults <- srch (join " " terms) (mkOptions modules (Some 10%Z) None) ;;
      ret (map (scale_tag (3 # 5) "nlp") basicResults)
  end.

(** The result map after tiers 2 and 3, before sorting. *)
Definition fused (query : string) (modules : option (list string)) (limit : Z)
    (threshold : Q) (st : IndexState) (nlpResults : list EnhancedSearchResult)
    : list (string * EnhancedSearchResult) :=
  fold_left merge_step nlpResults
    (fuzzy_tier query modules limit threshold (fuseInstances st)).

Definition opt_limit (opts : SearchOptions) : Z :=
  match o_limit opts with Some l => l | None => 20%Z end.

Definition opt_threshold (opts : SearchOptions) : Q :=
  match o_threshold opts with Some t => t | None => 3 # 10 end.

(** [search]; [now] is the value of [Date.now()] for the whole call tree
    (outer and nested staleness checks, end of a rebuild), so the model
    covers runs where the clock does not cross the staleness bound during a
    call. *)
Fixpoint search (fuel : nat) (query : string) (opts : SearchOptions)
    : M (list EnhancedSearchResult) :=
  match fuel with
  | O => diverge
  | S fuel' =>
      let modules := o_modules opts in
      let limit := opt_limit opts in
      let threshold := opt_threshold opts in
      let parsedQuery := parse query in
      _ <- refresh_index ;;
      st <- get ;;
      nlpResults <- searchWithNLP (search fuel') parsedQuery modules ;;
      ret (slice0 limit (sort_desc (map_values
             (fused query modules limit threshold st nlpResults))))
  end.

Fixpoint searchByEntity (srch : string -> SearchOptions -> M (list EnhancedSearchResult))
    (entityType : string) (entities : list string) : M (list EnhancedSearchResult) :=
  match entities with
  | [] => ret []
  | entity :: rest =>
      entityResults <- srch entity (mkOptions None (Some 5%Z) None) ;;
      others <- searchByEntity srch entityType rest ;;
      ret (app (map (scale_tag (7 # 10) entityType) entityResults) others)
  end.

(** [if (s)] on an optional string: [undefined] and [""] are falsy. *)
Definition truthy (o : option string) : option string :=
  match o with
  | Some s => if String.eqb s "" then None else Some s
  | None => None
  end.

Definition searchByFilters (srch : string -> SearchOptions -> M (list EnhancedSearchResult))
    (filters : NLP.Filters) : M (list EnhancedSearchResult) :=
  locationResults <-
    match truthy (NLP.f_location filters) with
    | Some loc => rs <- srch loc (mkOptions None (Some 10%Z) None) ;;
                  ret (map (scale_tag (4 # 5) "location") rs)
    | None => ret []
    end ;;
  personResults <-
    match truthy (NLP.f_person filters) with
    | Some p => rs <- srch p (mkOptions (Some ["people"]) (Some 5%Z) None) ;;
                ret (map (scale_tag (9 # 10) "person") rs)
    | None => ret []
    end ;;
  ret (app locationResults personResults).

Definition semanticSearch (fuel : nat) (query : string) (modules : option (list string))
    : M (list EnhancedSearchResult) :=
  let parsedQuery := parse query in
  let ents := NLP.entities parsedQuery in
  peopleResults <-
    match NLP.people ents with
    | [] => ret []
    | ps => searchByEntity (search fuel) "people" ps
    end ;;
  placesResults <-
    match NLP.places ents with
    | [] => ret []
    | ps => searchByEntity (search fuel) "places" ps
    end ;;
  filteredResults <- searchByFilters (search fuel) (NLP.filters parsedQuery) ;;
  let allResults := app peopleResults (app placesResults filteredResults) in
  let uniqueResults := fold_left merge_step allResults [] in
  ret (sort_desc (filter (fun r => module_selected modules (_type (r_item r)))
                         (map_values uniqueResults))).

End Retrieval.

End Search.

(* ------------------------------------------------------------------ *)
(** ** Enrichment feedback loop of [UniversalSearch.handleSearch] *)

Module Enrichment.

(** The fields of the enrichment response the caller reads:
    [searchTerms] ([None] when absent or not an array). *)
Record AiAnalysis := mkAi { ai_searchTerms : option (list string) }.

(** What [fetch('/ai-search')] and [response.json()] produce. *)
Inductive FetchOutcome :=
| NetworkError                  (* fetch rejects *)
| HttpError (status : Z)        (* !response.ok *)
| MalformedJson                 (* response.json() rejects *)
| JsonBody (success : bool) (result : AiAnalysis) (fallback : option AiAnalysis).

(** [AIService.enhancedSearch]: every failure is caught and replaced by
    [{searchTerms: [query], filters: {}, suggestions: []}]; otherwise
    [result.success ? result : result.fallback] ([None] for an undefined
    [fallback]). *)
Definition aiEnhancedSearch (query : string) (o : FetchOutcome) : option AiAnalysis :=
  match o with
  | NetworkError | HttpError _ | MalformedJson => Some (mkAi (Some [query]))
  | JsonBody true result _ => Some result
  | JsonBody false _ fallback => fallback
  end.

(** Lines 108-121 of [handleSearch]. [searchAgain] is
    [enhancedSearch.search(terms)] with default options ([None] when it
    rejects). Reading [searchTerms] of an undefined analysis throws, and
    the surrounding [catch] keeps the results. *)
Definition enrich {A} (searchAgain : string -> option (list A)) (query : string)
    (searchResults : list A) (o : FetchOutcome) : list A :=
  if Nat.ltb 8 (String.length query) && Nat.ltb (length searchResults) 5 then
    match aiEnhancedSearch query o with
    | None => searchResults
    | Some aiAnalysis =>
        match ai_searchTerms aiAnalysis with
        | Some ((_ :: _) as terms) =>
            match searchAgain (Search.join " " terms) with
            | Some enhancedResults =>
                if Nat.ltb (length searchResults) (length enhancedResults)
                then enhancedResults else searchResults
            | None => searchResults
            end
        | _ => searchResults
        end
    end
  else searchResults.

Definition is_failure (o : FetchOutcome) : bool :=
  match o with
  | NetworkError | HttpError _ | MalformedJson => true
  | JsonBody _ _ _ => false
  end.

End Enrichment.

(* ================================================================== *)
(** * Definitions of the verification: well-formedness, result maps,
    test data *)

(** Ten distinct qualifying nouns, the first of which is "journal". *)
Definition ten_nouns : list string :=
  ["journal"; "temple"; "museum"; "beach"; "market";
   "train"; "hotel"; "river"; "bridge"; "castle"].

(** The Fuse instances after loading the collections [ss] in order. *)
Definition loaded (db : string -> option (list SearchableItem)) (ss : list string)
    (m : list (string * list SearchableItem))
    : list (string * list SearchableItem) :=
  fold_left (fun acc s => match db s with
                          | Some items => Search.map_set s (map (Search.processItem s) items) acc
                          | None => acc
                          end) ss m.

(** Record stores for the index-building examples. *)
Definition db_people_fails (s : string) : option (list SearchableItem) :=
  if String.eqb s "people" then None
  else Some [mkItem "1" (Some "Kyoto") None None None None [] "" None].

Definition db_all (s : string) : option (list SearchableItem) :=
  Some [mkItem "1" (Some "Kyoto") None None None None [] "" None].

(** The index after a full build over [db_all]. *)
Definition index_before : Search.IndexState :=
  Search.buildSearchIndex db_all 0%Z (Search.mkState [] 0%Z).

(** An entry of the fuzzy tier: the result of a hit that passed [threshold]. *)
Definition fuzzy_entry_ok (query : string) (threshold : Q)
    (kv : string * EnhancedSearchResult) : Prop :=
  exists fr, snd kv = Search.fuzzy_result query fr /\
             (threshold <= Search.fuzzy_score fr)%Q.

(** A collection "people" with one record, a matcher that rates every
    document at distance 0.65, and a tagger that finds nothing. *)
Definition zed : SearchableItem :=
  mkItem "p1" None (Some "Zed") None None None [] "people" None.

Definition zed_state : Search.IndexState := Search.mkState [("people", [zed])] 0%Z.

Definition fuse_065 (_ : SearchableItem) (_ : string)
    : option (Q * list (option string)) :=
  Some (65 # 100, []).

Definition search_zed (fuel : nat) (query : string) (opts : Search.SearchOptions) :=
  Search.search fuse_065 (fun _ => []) (fun _ => []) (fun _ => []) (fun _ => [])
    "" "" (fun _ => None) 0%Z fuel query opts zed_state.

(** The record a result stands for: its (collection, id) pair. *)
Definition pair_of (r : EnhancedSearchResult) : string * string :=
  (_type (r_item r), id (r_item r)).

Fixpoint no_dash (s : string) : bool :=
  match s with
  | EmptyString => true
  | String c s' => negb (Ascii.eqb c "-") && no_dash s'
  end.

Fixpoint nodup_str (l : list string) : bool :=
  match l with
  | [] => true
  | x :: l' => negb (existsb (String.eqb x) l') && nodup_str l'
  end.

(** Well-formed fuzzy structures: one per collection, collection names
    without "-", every document tagged with its collection, and record ids
    unique within a collection (the data-model invariant). *)
Definition wf_index (fi : list (string * list SearchableItem)) : bool :=
  nodup_str (map fst fi) &&
  forallb (fun inst => no_dash (fst inst) &&
                       forallb (fun d => String.eqb (_type d) (fst inst)) (snd inst) &&
                       nodup_str (map id (snd inst))) fi.

(** The record store keeps ids unique within each collection. *)
Definition db_wf (db : string -> option (list SearchableItem)) : bool :=
  forallb (fun s => match db s with
                    | Some items => nodup_str (map id items)
                    | None => true
                    end) Search.stores.

(** The candidates the fuzzy tier accepts, in the order it meets them. *)
Definition fuzzy_candidates
    (fuse_match : SearchableItem -> string -> option (Q * list (option string)))
    (query : string) (modules : option (list string)) (limit : Z) (threshold : Q)
    (instances : list (string * list SearchableItem)) : list EnhancedSearchResult :=
  flat_map (fun inst =>
              if Search.module_selected modules (fst inst)
              then map (Search.fuzzy_result query)
                     (filter (fun fr => Qle_bool threshold (Search.fuzzy_score fr))
                        (Search.fuse_search fuse_match (snd inst) query limit))
              else []) instances.

(** The fuzzy tier's acceptance test, [score >= threshold]. *)
Definition fuzzy_accepted (threshold : Q) (fr : Search.FuseResult) : bool :=
  Qle_bool threshold (Search.fuzzy_score fr).

(** The hits of one fuzzy structure. *)
Definition inst_hits
    (fuse_match : SearchableItem -> string -> option (Q * list (option string)))
    (query : string) (limit : Z) (inst : string * list SearchableItem)
    : list Search.FuseResult :=
  Search.fuse_search fuse_match (snd inst) query limit.

Definition keyed (l : list EnhancedSearchResult) : list (string * EnhancedSearchResult) :=
  map (fun c => (Search.key_of c, c)) l.

Definition WfIndex (fi : list (string * list SearchableItem)) : Prop :=
  NoDup (map fst fi) /\
  forall inst, In inst fi ->
    no_dash (fst inst) = true /\
    (forall d, In d (snd inst) -> _type d = fst inst) /\
    NoDup (map id (snd inst)).

(** The result map after merging the candidates [P]: keys unique, every
    entry under its own key, drawn from [P], and at least as good as every
    candidate of [P] with that key; every candidate's key is present. *)
Definition MergeInv (P : list EnhancedSearchResult)
    (R : list (string * EnhancedSearchResult)) : Prop :=
  NoDup (map fst R) /\
  (forall k v, In (k, v) R ->
     k = Search.key_of v /\ In v P /\
     forall c, In c P -> Search.key_of c = k -> Qle (_score c) (_score v)) /\
  (forall c, In c P -> In (Search.key_of c) (map fst R)).

Definition ann : SearchableItem :=
  mkItem "p2" None (Some "Ann") None None None [] "people" None.

Definition two_people : Search.IndexState := Search.mkState [("people", [zed; ann])] 0%Z.

(** Fuse.js scores under which "Zed" matches only [zed] and "zed" matches
    [ann] exactly and [zed] loosely. *)
Definition fuse_two (d : SearchableItem) (q : string) : option (Q * list (option string)) :=
  if String.eqb q "Zed"
  then (if String.eqb (id d) "p1" then Some (1 # 2, []) else None)
  else (if String.eqb (id d) "p2" then Some (0, []) else Some (1 # 2, [])).

(** The tagger reads the capitalised "Zed" as a noun, nothing else. *)
Definition nouns_zed (s : string) : list string := if String.eqb s "Zed" then ["Zed"] else [].

(** A travel pin with a location and a tag, for the searchable-text
    property. *)
Definition kyoto_item : SearchableItem :=
  mkItem "t1" (Some "Kyoto Trip") None None None (Some "Japan") ["Temples"] "travelPins" None.

(** A journal entry whose text mentions no museum. *)
Definition calm_item : SearchableItem :=
  mkItem "j1" (Some "Day 3") None (Some "The temple was calm. We ate ramen!") None None []
    "journalEntries" None.

(** Filters naming a place and a person. *)
Definition kz_filters : NLP.Filters :=
  NLP.mkFilters None (Some "Kyoto") (Some "Zed") None None None.

(** Two people whose names start with "jo", indexed at time 0. *)
Definition jo : SearchableItem :=
  mkItem "p1" None (Some "Jo") None None None [] "people" None.

Definition joe : SearchableItem :=
  mkItem "p2" None (Some "Joe") None None None [] "people" None.

Definition jo_state : Search.IndexState := Search.mkState [("people", [jo; joe])] 0%Z.

(** A case-insensitive matcher on the [name] key: distance 0 when the
    query is the whole name, 1/4 when it is a prefix of it. *)
Definition fuse_ci (d : SearchableItem) (q : string) : option (Q * list (option string)) :=
  let n := JS.toLowerCase (JS.or_str (name d) "") in
  let q' := JS.toLowerCase q in
  if String.eqb n q' then Some (0, [Some "name"])
  else if prefix q' n then Some (1 # 4, [Some "name"]) else None.

(** A tagger that reads every word of the text as a match. *)
Definition every_word (s : string) : list string := JS.split_char " " s.

(** * Proofs *)

Section StringFacts.

Lemma length_append (a b : string) :
  String.length (a ++ b) = (String.length a + String.length b)%nat.
Proof. induction a as [|c a IH]; simpl; auto. Qed.

Lemma length_substring0 (n : nat) (s : string) :
  (String.length (JS.substring0 n s) <= n)%nat.
Proof.
  unfold JS.substring0. revert s.
  induction n as [|n IH]; intros [|c s]; simpl; try lia.
  specialize (IH s). lia.
Qed.

Lemma length_trimStart (s : string) :
  (String.length (JS.trimStart s) <= String.length s)%nat.
Proof.
  induction s as [|c s IH]; simpl; auto.
  destruct (JS.is_ws c); simpl; lia.
Qed.

Lemma length_rev_str (s acc : string) :
  String.length (JS.rev_str s acc) = (String.length s + String.length acc)%nat.
Proof.
  revert acc. induction s as [|c s IH]; intros acc; simpl; auto.
  rewrite IH. simpl. lia.
Qed.

Lemma length_trim (s : string) :
  (String.length (JS.trim s) <= String.length s)%nat.
Proof.
  unfold JS.trim, JS.trimEnd.
  rewrite length_rev_str. simpl.
  pose proof (length_trimStart (JS.rev_str (JS.trimStart s) "")).
  rewrite length_rev_str in H. simpl in H.
  pose proof (length_trimStart s). lia.
Qed.

End StringFacts.

(** C7 (snippet truncation): for every record and query, the snippet
    built by [generateSnippet] has at most 153 characters (the first 150
    characters of the trimmed best sentence plus a 3-character ellipsis),
    and whenever the trimmed best sentence was cut (it is longer than 150
    characters) the snippet ends in "...". In particular this holds for
    records whose description is longer than 150 characters and matches a
    query word. *)
Theorem generateSnippet_truncation (item : SearchableItem) (query : string) :
  (String.length (generateSnippet item query) <= 153)%nat /\
  ((150 < String.length (JS.trim (best_sentence (snippet_content item) query)))%nat ->
   exists body, (generateSnippet item query = body ++ "...")%string /\
                (String.length body = 150)%nat).
Proof.
  unfold generateSnippet.
  set (b := best_sentence (snippet_content item) query).
  split.
  - rewrite length_append.
    pose proof (length_substring0 150 (JS.trim b)).
    destruct (Nat.ltb 150 (String.length b)); simpl; lia.
  - intros Hcut.
    pose proof (length_trim b) as Ht.
    assert (Hlt : Nat.ltb 150 (String.length b) = true) by (apply Nat.ltb_lt; lia).
    rewrite Hlt.
    exists (JS.substring0 150 (JS.trim b)). split; [reflexivity|].
    unfold JS.substring0. revert Hcut. generalize (JS.trim b) as t.
    clear. intros t H.
    assert (Hgen : forall n t, (n < String.length t)%nat ->
              String.length (substring 0 n t) = n).
    { induction n as [|n IH]; intros [|c u] Hl; simpl in *; try lia.
      rewrite IH; lia. }
    apply Hgen. lia.
Qed.

(** ** Text analyser *)

Section SetFacts.
Local Open Scope list_scope.

Lemma set_add_In (x y : string) (s : list string) :
  In y (NLP.set_add x s) <-> y = x \/ In y s.
Proof.
  unfold NLP.set_add.
  destruct (existsb (String.eqb x) s) eqn:E.
  - apply existsb_exists in E as [z [Hz Heq]].
    apply String.eqb_eq in Heq. subst z.
    split; [auto|]. intros [->|H]; auto.
  - rewrite in_app_iff. simpl. intuition.
Qed.

Lemma set_add_all_In (y : string) (xs s : list string) :
  In y (NLP.set_add_all xs s) <-> In y xs \/ In y s.
Proof.
  unfold NLP.set_add_all. revert s.
  induction xs as [|x xs IH]; intros s; simpl.
  - intuition.
  - rewrite IH, set_add_In. intuition.
Qed.

Lemma set_add_extends (x : string) (s : list string) :
  exists l, NLP.set_add x s = s ++ l.
Proof.
  unfold NLP.set_add. destruct (existsb _ _).
  - exists []. now rewrite app_nil_r.
  - eauto.
Qed.

Lemma set_add_all_extends (xs s : list string) :
  exists l, NLP.set_add_all xs s = s ++ l.
Proof.
  unfold NLP.set_add_all. revert s.
  induction xs as [|x xs IH]; intros s; simpl.
  - exists []. now rewrite app_nil_r.
  - destruct (set_add_extends x s) as [l1 ->].
    destruct (IH (s ++ l1)) as [l2 E]. rewrite E.
    exists (l1 ++ l2). now rewrite app_assoc.
Qed.

Lemma set_add_all_app (xs ys s : list string) :
  NLP.set_add_all (xs ++ ys) s = NLP.set_add_all ys (NLP.set_add_all xs s).
Proof. unfold NLP.set_add_all. now rewrite fold_left_app. Qed.

Lemma keyword_table_In (text L : string) (tbl : list (string * list string)) :
  In L (map fst (filter (fun e => NLP.some_keyword text (snd e)) tbl)) <->
  exists kws, In (L, kws) tbl /\
              exists kw, In kw kws /\ JS.includes text kw = true.
Proof.
  rewrite in_map_iff. split.
  - intros [[L' kws] [Hf Hin]]. simpl in Hf. subst L'.
    apply filter_In in Hin as [Hin Hk].
    exists kws. split; [exact Hin|].
    unfold NLP.some_keyword in Hk. simpl in Hk.
    now apply existsb_exists in Hk.
  - intros [kws [Hin Hkw]]. exists (L, kws). split; [reflexivity|].
    apply filter_In. split; [exact Hin|].
    unfold NLP.some_keyword. simpl. now apply existsb_exists.
Qed.

End SetFacts.

(** C3 (corrected): on "find cheap food" the derived filters have
    [amount = {max: 20}] and no [type]: "food" is not a key of the type
    keyword table (temple, restaurant, museum, hotel, flight). This holds
    whatever the part-of-speech tagger reports. *)
Theorem parseQuery_find_cheap_food
    (pos_nouns pos_adjectives pos_people pos_places : string -> list string)
    (iso_last_week iso_month_start : string) :
  let q := NLP.parseSearchQuery pos_nouns pos_adjectives pos_people pos_places
             iso_last_week iso_month_start "find cheap food" in
  NLP.f_amount (NLP.filters q) = Some (NLP.mkAmount None (Some 20%Z)) /\
  NLP.f_type (NLP.filters q) = None.
Proof. split; reflexivity. Qed.

(** C3 counterexample: with the tags compromise gives this query (noun
    "food", adjective "cheap", no person, no place), [filters.type] is not
    "food". *)
Lemma parseQuery_find_cheap_food_type_not_food :
  NLP.f_type (NLP.filters
    (NLP.parseSearchQuery (fun _ => ["food"]) (fun _ => ["cheap"])
       (fun _ => []) (fun _ => []) "" "" "find cheap food")) <> Some "food".
Proof. vm_compute. discriminate. Qed.

(** C4 (corrected): [categorizeContent] reports a label of the
    8-element vocabulary exactly when a keyword of that label's
    [categoryMap] entry is a substring of the lower-cased text;
    [extractTopics] reports a label exactly when a keyword of that label's
    own topic list (a different table with only travel, food, culture and
    nature) is a substring of the lower-cased text, so adventure,
    entertainment, shopping and transport are never topics. *)
Theorem topics_categories_keyword_membership :
  (forall text L, In L (NLP.categorizeContent text) <->
     exists kws, In (L, kws) NLP.categoryMap /\
       exists kw, In kw kws /\ JS.includes (JS.toLowerCase text) kw = true) /\
  (forall text L, In L (NLP.extractTopics text) <->
     exists kws, In (L, kws) NLP.topicTable /\
       exists kw, In kw kws /\ JS.includes (JS.toLowerCase text) kw = true) /\
  (forall text L, In L (NLP.extractTopics text) ->
     In L ["travel"; "food"; "culture"; "nature"]) /\
  map fst NLP.categoryMap = ["food"; "travel"; "culture"; "nature"; "adventure";
                             "entertainment"; "shopping"; "transport"].
Proof.
  split; [|split; [|split]].
  - intros text L. apply keyword_table_In.
  - intros text L. unfold NLP.extractTopics.
    rewrite set_add_all_In, keyword_table_In. simpl. intuition.
  - intros text L H. unfold NLP.extractTopics in H.
    rewrite set_add_all_In in H. destruct H as [H|[]].
    apply in_map_iff in H as [e [<- Hin]].
    apply filter_In in Hin as [Hin _].
    simpl in Hin. simpl.
    intuition (subst; simpl; auto).
  - reflexivity.
Qed.

(** C4 counterexample: the text "adventure" earns the category
    "adventure" but not the topic "adventure" (its topic is "travel"). *)
Lemma adventure_category_not_topic :
  In "adventure" (NLP.categorizeContent "adventure") /\
  ~ In "adventure" (NLP.extractTopics "adventure").
Proof.
  vm_compute. split.
  - left. reflexivity.
  - intros [H|[]]. discriminate H.
Qed.

(** C10 (corrected): [generateTags] returns at most 10 tags, the first 10
    distinct entries of the insertion sequence (qualifying lower-cased
    nouns, topics, the non-empty [type], categories). When the text yields
    10 or more distinct qualifying nouns the result is exactly the first 10
    of them, so the supplied type is present only when it equals one of
    those nouns. *)
Theorem generateTags_cap (pos_nouns : string -> list string)
    (text : string) (type_ : option string) :
  let nouns := NLP.set_add_all
                 (map JS.toLowerCase (filter NLP.qualifying_noun (pos_nouns text))) [] in
  (length (NLP.generateTags pos_nouns text type_) <= 10)%nat /\
  ((10 <= length nouns)%nat ->
   NLP.generateTags pos_nouns text type_ = firstn 10 nouns).
Proof.
  intros nouns. split.
  - unfold NLP.generateTags. rewrite length_firstn. lia.
  - intros Hlen. unfold NLP.generateTags, NLP.tag_sequence.
    rewrite set_add_all_app. fold nouns.
    destruct (set_add_all_extends
                (NLP.extractTopics text ++
                 match type_ with
                 | Some t => if String.eqb t "" then [] else [t]
                 | None => []
                 end ++ NLP.categorizeContent text) nouns) as [l ->].
    rewrite firstn_app.
    replace (10 - length nouns)%nat with 0%nat by lia.
    simpl. now rewrite app_nil_r.
Qed.

(** C10 counterexample: with ten distinct qualifying nouns, the first of
    which is "journal", [generateTags text (Some "journal")] contains
    "journal". *)
Lemma generateTags_type_present :
  In "journal" (NLP.generateTags (fun _ => ten_nouns)
                  "journal temple museum beach market train hotel river bridge castle"
                  (Some "journal")).
Proof. vm_compute. left. reflexivity. Qed.

Lemma generateTags_cap_witness :
  (10 <= length (NLP.set_add_all (map JS.toLowerCase
                   (filter NLP.qualifying_noun ten_nouns)) []))%nat /\
  NLP.generateTags (fun _ => ten_nouns) "journal temple museum" (Some "journal")
  = firstn 10 (NLP.set_add_all (map JS.toLowerCase
                   (filter NLP.qualifying_noun ten_nouns)) []).
Proof.
  split.
  - vm_compute. lia.
  - apply (proj2 (generateTags_cap (fun _ => ten_nouns) "journal temple museum"
                    (Some "journal"))).
    vm_compute. lia.
Defined.

(** ** Index builder *)

Section MapFacts.
Local Open Scope list_scope.
Context {V : Type}.

Lemma map_get_set_same (k : string) (v : V) (m : list (string * V)) :
  Search.map_get k (Search.map_set k v m) = Some v.
Proof.
  unfold Search.map_get. induction m as [|[k' v'] m IH]; simpl.
  - now rewrite String.eqb_refl.
  - destruct (String.eqb k' k) eqn:E; simpl.
    + now rewrite String.eqb_refl.
    + now rewrite E.
Qed.

Lemma map_get_set_other (k k' : string) (v : V) (m : list (string * V)) :
  k' <> k -> Search.map_get k' (Search.map_set k v m) = Search.map_get k' m.
Proof.
  intros Hne. unfold Search.map_get.
  induction m as [|[k0 v0] m IH]; simpl.
  - destruct (String.eqb k k') eqn:E; [apply String.eqb_eq in E; congruence|reflexivity].
  - destruct (String.eqb k0 k) eqn:E; simpl.
    + apply String.eqb_eq in E. subst k0.
      destruct (String.eqb k k') eqn:E'; [apply String.eqb_eq in E'; congruence|reflexivity].
    + destruct (String.eqb k0 k'); [reflexivity|exact IH].
Qed.

Lemma map_set_In (k k' : string) (v v' : V) (m : list (string * V)) :
  In (k', v') (Search.map_set k v m) -> (k', v') = (k, v) \/ In (k', v') m.
Proof.
  induction m as [|[k0 v0] m IH]; simpl.
  - intros [H|[]]; auto.
  - destruct (String.eqb k0 k); simpl; intros [H|H]; auto.
    destruct (IH H); auto.
Qed.

End MapFacts.

Section BuildFacts.
Variable db : string -> option (list SearchableItem).

Lemma run_load_stores (ss : list string) (st : Search.IndexState) :
  Search.run_steps (map (Search.load_store db) ss) st =
  Search.mkState (loaded db ss (Search.fuseInstances st)) (Search.lastIndexUpdate st).
Proof.
  revert st. induction ss as [|s ss IH]; intros [fi lu]; simpl.
  - reflexivity.
  - unfold Search.run_steps in *. simpl. rewrite IH.
    unfold Search.load_store. simpl. destruct (db s); reflexivity.
Qed.

Lemma loaded_absent (s : string) (ss : list string) (m : list (string * list SearchableItem)) :
  (db s = None \/ ~ In s ss) ->
  Search.map_get s (loaded db ss m) = Search.map_get s m.
Proof.
  revert m. induction ss as [|s0 ss IH]; intros m H; simpl; [reflexivity|].
  rewrite IH by (destruct H as [H|H]; [left; exact H|right; intro; apply H; now right]).
  destruct (db s0) eqn:E; [|reflexivity].
  apply map_get_set_other. intros ->. destruct H as [H|H]; [congruence|apply H; now left].
Qed.

Lemma loaded_present (s : string) (items : list SearchableItem) (ss : list string)
    (m : list (string * list SearchableItem)) :
  db s = Some items -> In s ss ->
  Search.map_get s (loaded db ss m) = Some (map (Search.processItem s) items).
Proof.
  intros Hdb. revert m. induction ss as [|s0 ss IH]; intros m Hin; [destruct Hin|].
  simpl. destruct (in_dec string_dec s ss) as [Hs|Hs]; [now apply IH|].
  destruct Hin as [<-|Hin]; [|contradiction].
  rewrite loaded_absent by (right; exact Hs).
  rewrite Hdb. apply map_get_set_same.
Qed.

Lemma run_steps_app (l1 l2 : list (Search.IndexState -> Search.IndexState))
    (st : Search.IndexState) :
  Search.run_steps (l1 ++ l2) st = Search.run_steps l2 (Search.run_steps l1 st).
Proof. unfold Search.run_steps. apply fold_left_app. Qed.

Lemma buildSearchIndex_eq (now : Z) (st : Search.IndexState) :
  Search.buildSearchIndex db now st = Search.mkState (loaded db Search.stores []) now.
Proof.
  unfold Search.buildSearchIndex, Search.build_steps.
  change (Search.run_steps
            (app (map (Search.load_store db) Search.stores)
                 [fun st => Search.mkState (Search.fuseInstances st) now])
            (Search.mkState [] (Search.lastIndexUpdate st)) =
          Search.mkState (loaded db Search.stores []) now).
  rewrite run_steps_app, run_load_stores. reflexivity.
Qed.

End BuildFacts.

(** C5 (rebuild resilience): when the read of collection [s] throws,
    [buildSearchIndex] still returns a new index state: [s] has no fuzzy
    structure (it contributes no entry), every other collection whose read
    succeeds is indexed with all its records, and the update time is set. *)
Theorem buildSearchIndex_skips_failed_store
    (db : string -> option (list SearchableItem)) (now : Z)
    (st : Search.IndexState) (s : string)
    (Hin : In s Search.stores) (Hfail : db s = None) :
  let st' := Search.buildSearchIndex db now st in
  Search.map_get s (Search.fuseInstances st') = None /\
  (forall s' items, In s' Search.stores -> s' <> s -> db s' = Some items ->
     Search.map_get s' (Search.fuseInstances st') =
     Some (map (Search.processItem s') items)) /\
  Search.lastIndexUpdate st' = now.
Proof.
  cbv zeta. rewrite buildSearchIndex_eq.
  cbn [Search.fuseInstances Search.lastIndexUpdate]. split; [|split].
  - rewrite loaded_absent by (left; exact Hfail). reflexivity.
  - intros s' items Hs' _ Hdb. now apply loaded_present.
  - reflexivity.
Qed.

Lemma buildSearchIndex_skips_failed_store_witness :
  In "people" Search.stores /\ db_people_fails "people" = None /\
  Search.map_get "people"
    (Search.fuseInstances (Search.buildSearchIndex db_people_fails 7%Z
                             (Search.mkState [] 0%Z))) = None.
Proof.
  split; [simpl; tauto|split; [reflexivity|]].
  apply (buildSearchIndex_skips_failed_store db_people_fails 7%Z
           (Search.mkState [] 0%Z) "people"); [simpl; tauto|reflexivity].
Defined.

(** ** Semantic search *)

(** C9: when the query has no person and no place entity and its filters
    have neither a location nor a person, [semanticSearch] issues no
    sub-search and returns the empty list, for every index state and
    every [modules] argument. *)
Theorem semanticSearch_no_entities
    (fuse_match : SearchableItem -> string -> option (Q * list (option string)))
    (pos_nouns pos_adjectives pos_people pos_places : string -> list string)
    (iso_last_week iso_month_start : string)
    (db : string -> option (list SearchableItem)) (now : Z)
    (fuel : nat) (query : string) (modules : option (list string))
    (st : Search.IndexState) :
  let q := Search.parse pos_nouns pos_adjectives pos_people pos_places
             iso_last_week iso_month_start query in
  NLP.people (NLP.entities q) = [] ->
  NLP.places (NLP.entities q) = [] ->
  NLP.f_location (NLP.filters q) = None ->
  NLP.f_person (NLP.filters q) = None ->
  Search.semanticSearch fuse_match pos_nouns pos_adjectives pos_people pos_places
    iso_last_week iso_month_start db now fuel query modules st = Some ([], st).
Proof.
  cbv zeta. intros Hpeople Hplaces Hloc Hperson.
  unfold Search.semanticSearch, Search.searchByFilters, Search.bind.
  rewrite Hpeople, Hplaces, Hloc, Hperson. reflexivity.
Qed.

Lemma semanticSearch_no_entities_witness :
  Search.semanticSearch (fun _ _ => None) (fun _ => []) (fun _ => []) (fun _ => [])
    (fun _ => []) "" "" (fun _ => None) 0%Z 3 "cheap food" None
    (Search.mkState [] 0%Z) = Some ([], Search.mkState [] 0%Z).
Proof.
  apply (semanticSearch_no_entities (fun _ _ => None) (fun _ => []) (fun _ => [])
           (fun _ => []) (fun _ => []) "" "" (fun _ => None) 0%Z 3 "cheap food" None
           (Search.mkState [] 0%Z)); reflexivity.
Defined.

(** ** Fuzzy tier *)

Section FuzzyFacts.
Variable fuse_match : SearchableItem -> string -> option (Q * list (option string)).
Variable query : string.
Variable threshold : Q.

Lemma fuzzy_step_ok (m : string) (results : list (string * EnhancedSearchResult))
    (fr : Search.FuseResult) :
  Forall (fuzzy_entry_ok query threshold) results ->
  Forall (fuzzy_entry_ok query threshold) (Search.fuzzy_step query threshold m results fr).
Proof.
  intros H. unfold Search.fuzzy_step.
  destruct (Qle_bool threshold (Search.fuzzy_score fr)) eqn:Ht; simpl; [|exact H].
  destruct (match Search.map_get _ results with
            | Some old => Search.Qltb (_score old) (Search.fuzzy_score fr)
            | None => true end); [|exact H].
  apply Forall_forall. intros [k v] Hin.
  apply map_set_In in Hin as [Heq|Hin].
  - inversion Heq; subst. exists fr. split; [reflexivity|].
    now apply Qle_bool_iff.
  - now apply (proj1 (Forall_forall _ _) H).
Qed.

Lemma fuzzy_tier_ok (modules : option (list string)) (limit : Z)
    (instances : list (string * list SearchableItem)) :
  Forall (fuzzy_entry_ok query threshold)
    (Search.fuzzy_tier fuse_match query modules limit threshold instances).
Proof.
  unfold Search.fuzzy_tier.
  assert (Hgen : forall acc, Forall (fuzzy_entry_ok query threshold) acc ->
    Forall (fuzzy_entry_ok query threshold)
      (fold_left (fun results inst =>
         if Search.module_selected modules (fst inst)
         then fold_left (Search.fuzzy_step query threshold (fst inst))
                        (Search.fuse_search fuse_match (snd inst) query limit) results
         else results) instances acc)).
  { induction instances as [|inst insts IH]; intros acc Hacc; simpl; [exact Hacc|].
    apply IH. destruct (Search.module_selected modules (fst inst)); [|exact Hacc].
    generalize (Search.fuse_search fuse_match (snd inst) query limit). intros frs.
    revert acc Hacc. induction frs as [|fr frs IHf]; intros acc Hacc; simpl; [exact Hacc|].
    apply IHf. now apply fuzzy_step_ok. }
  apply Hgen. constructor.
Qed.

End FuzzyFacts.

(** C2 (corrected): the fuzzy tier compares the caller's [threshold]
    with the unscaled similarity [1 - (score || 0)] and stores 0.8 times
    that similarity. Every entry of the fuzzy tier's map therefore comes
    from a hit whose unscaled similarity is at least [threshold], and its
    [_score] is 0.8 times that similarity, so at least [0.8 * threshold]. *)
Theorem fuzzy_tier_threshold
    (fuse_match : SearchableItem -> string -> option (Q * list (option string)))
    (query : string) (modules : option (list string)) (limit : Z) (threshold : Q)
    (instances : list (string * list SearchableItem))
    (k : string) (v : EnhancedSearchResult) :
  In (k, v) (Search.fuzzy_tier fuse_match query modules limit threshold instances) ->
  exists fr, v = Search.fuzzy_result query fr /\
             (threshold <= Search.fuzzy_score fr)%Q /\
             _score v = (Search.fuzzy_score fr * (4 # 5))%Q /\
             (threshold * (4 # 5) <= _score v)%Q.
Proof.
  intros Hin.
  pose proof (proj1 (Forall_forall _ _)
                (fuzzy_tier_ok fuse_match query threshold modules limit instances)
                (k, v) Hin) as [fr [Hv Ht]].
  simpl in Hv. exists fr. subst v. simpl. split; [reflexivity|split; [exact Ht|split]].
  - reflexivity.
  - apply Qmult_le_compat_r; [exact Ht|]. unfold Qle; simpl; lia.
Qed.

Lemma fuzzy_tier_threshold_witness :
  In ("people-p1", Search.fuzzy_result "zed" (Search.mkFuseResult zed (Some (65 # 100)) (Some [])))
     (Search.fuzzy_tier fuse_065 "zed" None 20%Z (3 # 10) [("people", [zed])]) /\
  exists fr, Search.fuzzy_result "zed" (Search.mkFuseResult zed (Some (65 # 100)) (Some []))
             = Search.fuzzy_result "zed" fr /\
             (3 # 10 <= Search.fuzzy_score fr)%Q /\
             _score (Search.fuzzy_result "zed" (Search.mkFuseResult zed (Some (65 # 100)) (Some [])))
             = (Search.fuzzy_score fr * (4 # 5))%Q /\
             ((3 # 10) * (4 # 5) <= _score (Search.fuzzy_result "zed"
                 (Search.mkFuseResult zed (Some (65 # 100)) (Some []))))%Q.
Proof.
  split.
  - vm_compute. left. reflexivity.
  - apply (fuzzy_tier_threshold fuse_065 "zed" None 20%Z (3 # 10) [("people", [zed])]
             "people-p1"). vm_compute. left. reflexivity.
Defined.

(** C2 counterexample: with the default threshold 0.3, a hit at distance
    0.65 (similarity 0.35) is kept by the fuzzy tier with [_score] 0.28,
    below the threshold, and is returned by [search]. *)
Lemma fuzzy_entry_below_threshold :
  exists r st', search_zed 1 "zed" Search.noOptions = Some ([r], st') /\
                (_score r < 3 # 10)%Q /\ _score r == 7 # 25.
Proof.
  eexists; eexists. split; [vm_compute; reflexivity|].
  split; reflexivity.
Qed.

(** ** Result fusion *)

Section FusionFacts.
Local Open Scope list_scope.

Lemma map_get_None_iff {V} (k : string) (m : list (string * V)) :
  Search.map_get k m = None <-> ~ In k (map fst m).
Proof.
  unfold Search.map_get. induction m as [|[k' v'] m IH]; simpl.
  - tauto.
  - destruct (String.eqb k' k) eqn:E.
    + apply String.eqb_eq in E. subst. split; [discriminate|tauto].
    + apply String.eqb_neq in E. rewrite IH. intuition.
Qed.

Lemma map_set_absent {V} (k : string) (v : V) (m : list (string * V)) :
  ~ In k (map fst m) -> Search.map_set k v m = m ++ [(k, v)].
Proof.
  induction m as [|[k' v'] m IH]; simpl; intros H; [reflexivity|].
  destruct (String.eqb k' k) eqn:E.
  - apply String.eqb_eq in E. subst. tauto.
  - rewrite IH by tauto. reflexivity.
Qed.

Lemma map_set_keys_present {V} (k : string) (v : V) (m : list (string * V)) :
  In k (map fst m) -> map fst (Search.map_set k v m) = map fst m.
Proof.
  induction m as [|[k' v'] m IH]; simpl; intros H; [destruct H|].
  destruct (String.eqb k' k) eqn:E.
  - apply String.eqb_eq in E. subst. reflexivity.
  - apply String.eqb_neq in E. simpl. rewrite IH by (destruct H; [congruence|exact H]).
    reflexivity.
Qed.

Lemma map_set_nodup {V} (k : string) (v : V) (m : list (string * V)) :
  NoDup (map fst m) -> NoDup (map fst (Search.map_set k v m)).
Proof.
  intros H. destruct (in_dec string_dec k (map fst m)) as [Hin|Hin].
  - now rewrite map_set_keys_present.
  - rewrite map_set_absent by exact Hin. rewrite map_app. simpl.
    apply NoDup_app; [exact H|constructor; [tauto|constructor]|].
    intros a Ha [<-|[]]. contradiction.
Qed.

Lemma map_get_In {V} (k : string) (v : V) (m : list (string * V)) :
  NoDup (map fst m) -> (In (k, v) m <-> Search.map_get k m = Some v).
Proof.
  unfold Search.map_get. induction m as [|[k' v'] m IH]; simpl; intros Hnd.
  - split; [tauto|discriminate].
  - inversion Hnd as [|? ? Hnot Hnd']; subst.
    destruct (String.eqb k' k) eqn:E.
    + apply String.eqb_eq in E. subst. split.
      * intros [H|H]; [now inversion H|].
        exfalso. apply Hnot. now apply (in_map fst) in H.
      * intros H. inversion H. now left.
    + apply String.eqb_neq in E. rewrite <- IH by exact Hnd'. split.
      * intros [H|H]; [inversion H; congruence|exact H].
      * now right.
Qed.

Lemma insert_by_perm {A} (before : A -> A -> bool) (x : A) (l : list A) :
  Permutation (Search.insert_by before x l) (x :: l).
Proof.
  induction l as [|y l IH]; simpl; [reflexivity|].
  destruct (before x y); [reflexivity|].
  rewrite IH. apply perm_swap.
Qed.

Lemma sort_by_perm {A} (before : A -> A -> bool) (l : list A) :
  Permutation (Search.sort_by before l) l.
Proof.
  unfold Search.sort_by.
  assert (H : forall l acc, Permutation
            (fold_left (fun acc x => Search.insert_by before x acc) l acc) (l ++ acc)).
  { induction l0 as [|x l0 IH]; intros acc; simpl; [reflexivity|].
    rewrite IH, insert_by_perm. symmetry. apply Permutation_middle. }
  rewrite H. now rewrite app_nil_r.
Qed.

Lemma firstn_NoDup {A} (n : nat) (l : list A) : NoDup l -> NoDup (firstn n l).
Proof.
  intros H. rewrite <- (firstn_skipn n l) in H. now apply NoDup_app_remove_r in H.
Qed.

Lemma firstn_In {A} (n : nat) (l : list A) (x : A) : In x (firstn n l) -> In x l.
Proof.
  intros H. rewrite <- (firstn_skipn n l). apply in_or_app. now left.
Qed.

Lemma nodup_str_NoDup (l : list string) : nodup_str l = true -> NoDup l.
Proof.
  induction l as [|x l IH]; simpl; intros H; [constructor|].
  apply andb_true_iff in H as [H1 H2]. constructor; [|now apply IH].
  intros Hin. apply negb_true_iff in H1.
  assert (existsb (String.eqb x) l = true) by
    (apply existsb_exists; exists x; split; [exact Hin|apply String.eqb_refl]).
  congruence.
Qed.

Lemma NoDup_map_inj {A B} (f : A -> B) (l : list A) :
  (forall x y, f x = f y -> x = y) -> NoDup l -> NoDup (map f l).
Proof.
  intros Hinj. induction 1 as [|x l Hx Hl IH]; simpl; constructor; [|exact IH].
  intros Hin. apply in_map_iff in Hin as [y [Hy Hyl]].
  apply Hinj in Hy. subst. contradiction.
Qed.

Lemma key_inj (m1 m2 i1 i2 : string) :
  no_dash m1 = true -> no_dash m2 = true ->
  (m1 ++ "-" ++ i1)%string = (m2 ++ "-" ++ i2)%string -> m1 = m2 /\ i1 = i2.
Proof.
  revert m2. induction m1 as [|c1 m1 IH]; intros [|c2 m2] H1 H2 Heq; simpl in *.
  - inversion Heq. auto.
  - inversion Heq; subst. simpl in H2. discriminate.
  - inversion Heq; subst. simpl in H1. discriminate.
  - inversion Heq; subst.
    apply andb_true_iff in H1 as [_ H1]. apply andb_true_iff in H2 as [_ H2].
    destruct (IH m2 H1 H2 H3) as [-> ->]. auto.
Qed.

Lemma append_inj_l (m s1 s2 : string) : (m ++ s1)%string = (m ++ s2)%string -> s1 = s2.
Proof. induction m as [|c m IH]; simpl; intros H; [exact H|inversion H; auto]. Qed.

End FusionFacts.

Section WfFacts.
Local Open Scope list_scope.

Lemma wf_index_WfIndex (fi : list (string * list SearchableItem)) :
  wf_index fi = true -> WfIndex fi.
Proof.
  unfold wf_index. intros H. apply andb_true_iff in H as [H1 H2].
  split; [now apply nodup_str_NoDup|].
  intros inst Hin. rewrite forallb_forall in H2. specialize (H2 inst Hin).
  apply andb_true_iff in H2 as [H2 H4]. apply andb_true_iff in H2 as [H2 H3].
  split; [exact H2|split; [|now apply nodup_str_NoDup]].
  intros d Hd. rewrite forallb_forall in H3. apply String.eqb_eq. now apply H3.
Qed.

Lemma loaded_WfIndex (db : string -> option (list SearchableItem)) (ss : list string)
    (m : list (string * list SearchableItem)) :
  db_wf db = true -> incl ss Search.stores -> WfIndex m -> WfIndex (loaded db ss m).
Proof.
  intros Hdb. revert m. induction ss as [|s ss IH]; intros m Hss Hm; simpl; [exact Hm|].
  apply IH; [intros x Hx; apply Hss; now right|].
  destruct (db s) as [items|] eqn:E; [|exact Hm].
  assert (Hs : In s Search.stores) by (apply Hss; now left).
  destruct Hm as [Hnd Hent]. split; [now apply map_set_nodup|].
  intros inst Hin. destruct inst as [k docs].
  apply map_set_In in Hin as [Heq|Hin]; [|now apply Hent].
  inversion Heq; subst k docs. simpl. split; [|split].
  - assert (Hall : forallb no_dash Search.stores = true) by reflexivity.
    rewrite forallb_forall in Hall. now apply Hall.
  - intros d Hd. apply in_map_iff in Hd as [x [<- _]]. reflexivity.
  - rewrite map_map. simpl.
    unfold db_wf in Hdb. rewrite forallb_forall in Hdb.
    specialize (Hdb s Hs). rewrite E in Hdb. now apply nodup_str_NoDup.
Qed.

Lemma refreshed_WfIndex (db : string -> option (list SearchableItem)) (now : Z)
    (st : Search.IndexState) :
  db_wf db = true -> WfIndex (Search.fuseInstances st) ->
  WfIndex (Search.fuseInstances (Search.refreshed db now st)).
Proof.
  intros Hdb Hst. unfold Search.refreshed.
  destruct (Search.indexUpdateInterval <? now - Search.lastIndexUpdate st)%Z; [|exact Hst].
  rewrite buildSearchIndex_eq. cbn [Search.fuseInstances].
  apply loaded_WfIndex; [exact Hdb|intros x Hx; exact Hx|].
  split; [constructor|intros _ []].
Qed.

Section FuseFacts.
Variable fuse_match : SearchableItem -> string -> option (Q * list (option string)).

Lemma fuse_hits_docs (docs : list SearchableItem) (q : string) :
  (forall fr, In fr (Search.fuse_hits fuse_match docs q) -> In (Search.fr_item fr) docs) /\
  (NoDup (map id docs) ->
   NoDup (map (fun fr => id (Search.fr_item fr)) (Search.fuse_hits fuse_match docs q))).
Proof.
  unfold Search.fuse_hits.
  induction docs as [|d docs [IHin IHnd]]; simpl; [split; [tauto|constructor]|].
  destruct (fuse_match d q) as [[sc ms]|]; simpl; split.
  - intros fr [<-|H]; [now left|right; now apply IHin].
  - intros Hnd. inversion Hnd as [|? ? Hnot Hnd']; subst. constructor; [|now apply IHnd].
    intros Hin. apply in_map_iff in Hin as [fr [Hid Hfr]].
    apply IHin in Hfr. apply Hnot. rewrite <- Hid. now apply in_map.
  - intros fr H. right. now apply IHin.
  - intros Hnd. inversion Hnd. now apply IHnd.
Qed.

Lemma fuse_search_docs (docs : list SearchableItem) (q : string) (l : Z) :
  (forall fr, In fr (Search.fuse_search fuse_match docs q l) -> In (Search.fr_item fr) docs) /\
  (NoDup (map id docs) ->
   NoDup (map (fun fr => id (Search.fr_item fr)) (Search.fuse_search fuse_match docs q l))).
Proof.
  destruct (fuse_hits_docs docs q) as [Hin Hnd].
  pose proof (sort_by_perm (fun a b => Search.Qltb (Search.fr_sc a) (Search.fr_sc b))
                (Search.fuse_hits fuse_match docs q)) as Hp.
  assert (Hs : (forall fr, In fr (Search.sort_by (fun a b => Search.Qltb (Search.fr_sc a)
                 (Search.fr_sc b)) (Search.fuse_hits fuse_match docs q)) -> In (Search.fr_item fr) docs) /\
               (NoDup (map id docs) -> NoDup (map (fun fr => id (Search.fr_item fr))
                 (Search.sort_by (fun a b => Search.Qltb (Search.fr_sc a) (Search.fr_sc b))
                    (Search.fuse_hits fuse_match docs q))))).
  { split.
    - intros fr H. apply Hin. eapply Permutation_in; [exact Hp|exact H].
    - intros H. eapply Permutation_NoDup; [|exact (Hnd H)].
      symmetry. now apply Permutation_map. }
  unfold Search.fuse_search. cbv zeta.
  destruct (-1 <? l)%Z; [|exact Hs]. destruct Hs as [Hs1 Hs2]. split.
  - intros fr H. apply Hs1. eapply firstn_In; exact H.
  - intros H. rewrite <- firstn_map. now apply firstn_NoDup, Hs2.
Qed.

End FuseFacts.

End WfFacts.

Section FuzzyStructure.
Local Open Scope list_scope.
Variable fuse_match : SearchableItem -> string -> option (Q * list (option string)).
Variable query : string.
Variable modules : option (list string).
Variable limit : Z.
Variable threshold : Q.

Lemma key_of_fuzzy_result (m : string) (fr : Search.FuseResult) :
  _type (Search.fr_item fr) = m ->
  Search.key_of (Search.fuzzy_result query fr) = (m ++ "-" ++ id (Search.fr_item fr))%string.
Proof. intros H. unfold Search.key_of, Search.fuzzy_result. simpl. now rewrite H. Qed.

Lemma NoDup_map_filter {A B} (g : A -> B) (keep : A -> bool) (xs : list A) :
  NoDup (map g xs) -> NoDup (map g (filter keep xs)).
Proof.
  induction xs as [|x xs IH]; cbn; intros Hnd; [constructor|].
  inversion Hnd as [|? ? Hx Hrest]; subst.
  destruct (keep x); cbn; [constructor|]; auto.
  intros Hin. apply Hx. apply in_map_iff in Hin as [y [Hy Hyx]].
  apply filter_In in Hyx as [Hyx _]. rewrite <- Hy. now apply in_map.
Qed.

Lemma fuzzy_inner (m : string) (frs : list Search.FuseResult)
    (acc : list (string * EnhancedSearchResult)) :
  (forall fr, In fr frs -> _type (Search.fr_item fr) = m) ->
  NoDup (map fst acc ++ map Search.key_of (map (Search.fuzzy_result query) (filter (fuzzy_accepted threshold) frs))) ->
  fold_left (Search.fuzzy_step query threshold m) frs acc =
  acc ++ keyed (map (Search.fuzzy_result query) (filter (fuzzy_accepted threshold) frs)).
Proof.
  revert acc. induction frs as [|fr frs IH]; intros acc Hty Hnd.
  - simpl. now rewrite app_nil_r.
  - cbn [fold_left].
    assert (Htyfr : _type (Search.fr_item fr) = m) by (apply Hty; now left).
    assert (Htys : forall fr', In fr' frs -> _type (Search.fr_item fr') = m)
      by (intros; apply Hty; now right).
    destruct ((fuzzy_accepted threshold) fr) eqn:Hq.
    + cbn [filter] in *. rewrite Hq in *. cbn [map] in Hnd |- *.
      set (c := Search.fuzzy_result query fr) in *.
      assert (Hk : Search.key_of c = (m ++ "-" ++ id (Search.fr_item fr))%string)
        by (apply key_of_fuzzy_result; exact Htyfr).
      assert (Hnot : ~ In (Search.key_of c) (map fst acc)).
      { intros Hin. apply NoDup_remove_2 in Hnd. apply Hnd. apply in_or_app. now left. }
      assert (Hstep : Search.fuzzy_step query threshold m acc fr =
                      acc ++ [(Search.key_of c, c)]).
      { unfold Search.fuzzy_step. cbv zeta. rewrite <- Hk.
        unfold fuzzy_accepted in Hq. rewrite Hq.
        rewrite (proj2 (map_get_None_iff _ _) Hnot). simpl.
        apply map_set_absent. exact Hnot. }
      rewrite Hstep, IH.
      * unfold keyed. simpl. now rewrite <- app_assoc.
      * exact Htys.
      * rewrite map_app. simpl. now rewrite <- app_assoc.
    + cbn [filter] in *. rewrite Hq in *.
      assert (Hstep : Search.fuzzy_step query threshold m acc fr = acc).
      { unfold Search.fuzzy_step. cbv zeta. unfold fuzzy_accepted in Hq. now rewrite Hq. }
      rewrite Hstep. now apply IH.
Qed.

Lemma fuzzy_candidates_cons (inst : string * list SearchableItem)
    (insts : list (string * list SearchableItem)) :
  fuzzy_candidates fuse_match query modules limit threshold (inst :: insts) =
  (if Search.module_selected modules (fst inst)
   then map (Search.fuzzy_result query) (filter (fuzzy_accepted threshold) ((inst_hits fuse_match query limit) inst)) else [])
  ++ fuzzy_candidates fuse_match query modules limit threshold insts.
Proof. reflexivity. Qed.

Lemma fuzzy_outer (insts : list (string * list SearchableItem))
    (acc : list (string * EnhancedSearchResult)) :
  (forall inst, In inst insts -> forall fr, In fr ((inst_hits fuse_match query limit) inst) ->
     _type (Search.fr_item fr) = fst inst) ->
  NoDup (map fst acc ++
         map Search.key_of (fuzzy_candidates fuse_match query modules limit threshold insts)) ->
  fold_left
    (fun results inst =>
       if Search.module_selected modules (fst inst)
       then fold_left (Search.fuzzy_step query threshold (fst inst))
                      (Search.fuse_search fuse_match (snd inst) query limit) results
       else results) insts acc =
  acc ++ keyed (fuzzy_candidates fuse_match query modules limit threshold insts).
Proof.
  revert acc. induction insts as [|inst insts IH]; intros acc Hty Hnd.
  - simpl. now rewrite app_nil_r.
  - cbn [fold_left]. rewrite fuzzy_candidates_cons in Hnd |- *.
    rewrite map_app, app_assoc in Hnd.
    assert (Htys : forall i, In i insts -> forall fr, In fr ((inst_hits fuse_match query limit) i) ->
                     _type (Search.fr_item fr) = fst i)
      by (intros i Hi; apply Hty; now right).
    destruct (Search.module_selected modules (fst inst)).
    + rewrite fuzzy_inner.
      * rewrite IH; [|exact Htys|].
        -- unfold keyed. rewrite map_app. now rewrite app_assoc.
        -- unfold keyed. rewrite map_app, map_map. simpl. exact Hnd.
      * intros fr Hfr. apply (Hty inst); [now left|exact Hfr].
      * now apply NoDup_app_remove_r in Hnd.
    + simpl in Hnd |- *. rewrite app_nil_r in Hnd. now apply IH.
Qed.

Lemma fuzzy_candidates_origin (insts : list (string * list SearchableItem))
    (c : EnhancedSearchResult) :
  In c (fuzzy_candidates fuse_match query modules limit threshold insts) ->
  exists inst fr, In inst insts /\ In fr ((inst_hits fuse_match query limit) inst) /\ c = Search.fuzzy_result query fr.
Proof.
  unfold fuzzy_candidates. intros H. apply in_flat_map in H as [inst [Hi Hc]].
  destruct (Search.module_selected modules (fst inst)); [|destruct Hc].
  apply in_map_iff in Hc as [fr [<- Hfr]]. apply filter_In in Hfr as [Hfr _].
  exists inst, fr. auto.
Qed.

Lemma fuzzy_tier_keyed (insts : list (string * list SearchableItem)) :
  WfIndex insts ->
  Search.fuzzy_tier fuse_match query modules limit threshold insts =
  keyed (fuzzy_candidates fuse_match query modules limit threshold insts) /\
  NoDup (map Search.key_of (fuzzy_candidates fuse_match query modules limit threshold insts)).
Proof.
  intros [Hnd Hent].
  assert (Hty : forall inst, In inst insts -> forall fr, In fr ((inst_hits fuse_match query limit) inst) ->
                  _type (Search.fr_item fr) = fst inst).
  { intros inst Hi fr Hfr. destruct (Hent inst Hi) as [_ [Hd _]].
    apply Hd. eapply (proj1 (fuse_search_docs fuse_match (snd inst) query limit)).
    exact Hfr. }
  assert (Hkeys : NoDup (map Search.key_of
                    (fuzzy_candidates fuse_match query modules limit threshold insts))).
  { clear Hty. induction insts as [|inst insts IH]; [constructor|].
    assert (Hty1 : forall fr, In fr ((inst_hits fuse_match query limit) inst) -> _type (Search.fr_item fr) = fst inst).
    { intros fr Hfr. destruct (Hent inst (or_introl eq_refl)) as [_ [Hd _]].
      apply Hd. eapply (proj1 (fuse_search_docs fuse_match (snd inst) query limit)).
      exact Hfr. }
    inversion Hnd as [|? ? Hnot Hnd']; subst.
    rewrite fuzzy_candidates_cons, map_app.
    destruct (Hent inst (or_introl eq_refl)) as [Hdash [_ Hids]].
    apply NoDup_app.
    - destruct (Search.module_selected modules (fst inst)); [|constructor].
      rewrite map_map.
      rewrite (map_ext_in _ (fun fr => (fst inst ++ "-" ++ id (Search.fr_item fr))%string)).
      2:{ intros fr Hfr. apply filter_In in Hfr as [Hfr _].
          apply key_of_fuzzy_result. now apply Hty1. }
      rewrite <- (map_map (fun fr => id (Search.fr_item fr))
                    (fun i => (fst inst ++ "-" ++ i)%string)).
      apply NoDup_map_inj.
      + intros x y Hxy. apply append_inj_l in Hxy. now inversion Hxy.
      + apply NoDup_map_filter.
        now apply (proj2 (fuse_search_docs fuse_match (snd inst) query limit)).
    - apply IH; [exact Hnd'|intros i Hi; apply Hent; now right].
    - intros k Hk1 Hk2.
      destruct (Search.module_selected modules (fst inst)); [|destruct Hk1].
      apply in_map_iff in Hk1 as [c1 [<- Hc1]].
      apply in_map_iff in Hk2 as [c2 [Heq Hc2]].
      apply in_map_iff in Hc1 as [fr1 [<- Hfr1]].
      apply filter_In in Hfr1 as [Hfr1 _].
      apply fuzzy_candidates_origin in Hc2 as [inst2 [fr2 [Hi2 [Hfr2 ->]]]].
      destruct (Hent inst2 (or_intror Hi2)) as [Hdash2 [Hd2 _]].
      assert (Ht2 : _type (Search.fr_item fr2) = fst inst2).
      { apply Hd2. eapply (proj1 (fuse_search_docs fuse_match (snd inst2) query limit)).
        exact Hfr2. }
      rewrite (key_of_fuzzy_result (fst inst2) fr2 Ht2) in Heq.
      rewrite (key_of_fuzzy_result (fst inst) fr1 (Hty1 fr1 Hfr1)) in Heq.
      apply key_inj in Heq as [Hm _]; [|exact Hdash2|exact Hdash].
      apply Hnot. rewrite <- Hm. now apply in_map. }
  split; [|exact Hkeys].
  unfold Search.fuzzy_tier. rewrite fuzzy_outer; [reflexivity|exact Hty|exact Hkeys].
Qed.

End FuzzyStructure.

Section MergeFacts.
Local Open Scope list_scope.

Lemma Qltb_true (x y : Q) : Search.Qltb x y = true -> Qlt x y.
Proof.
  unfold Search.Qltb. intros H. apply negb_true_iff in H.
  apply Qnot_le_lt. intros Hle. apply Qle_bool_iff in Hle. congruence.
Qed.

Lemma Qltb_false (x y : Q) : Search.Qltb x y = false -> Qle y x.
Proof.
  unfold Search.Qltb. intros H. apply negb_false_iff in H. now apply Qle_bool_iff.
Qed.

Lemma map_set_In_iff {V} (k k' : string) (v v' : V) (m : list (string * V)) :
  NoDup (map fst m) ->
  (In (k', v') (Search.map_set k v m) <->
   (k' = k /\ v' = v) \/ (k' <> k /\ In (k', v') m)).
Proof.
  induction m as [|[k0 v0] m IH]; simpl; intros Hnd.
  - split.
    + intros [H|[]]. inversion H. now left.
    + intros [[-> ->]|[_ []]]. now left.
  - inversion Hnd as [|? ? Hnot Hnd']; subst.
    destruct (String.eqb k0 k) eqn:E.
    + apply String.eqb_eq in E. subst k0. simpl. split.
      * intros [H|H]; [inversion H; now left|].
        right. split; [|now right]. intros ->.
        apply Hnot. now apply (in_map fst) in H.
      * intros [[-> ->]|[Hne [H|H]]]; [now left|inversion H; congruence|now right].
    + apply String.eqb_neq in E. simpl. rewrite IH by exact Hnd'. split.
      * intros [H|[H|[Hne H]]].
        -- inversion H; subst. right. split; [congruence|now left].
        -- now left.
        -- right. split; [exact Hne|now right].
      * intros [H|[Hne [H|H]]]; [right; now left|now left|right; right; now split].
Qed.

Lemma map_set_keys_In {V} (k k' : string) (v : V) (m : list (string * V)) :
  In k' (map fst (Search.map_set k v m)) <-> k' = k \/ In k' (map fst m).
Proof.
  induction m as [|[k0 v0] m IH]; simpl.
  - intuition.
  - destruct (String.eqb k0 k) eqn:E.
    + apply String.eqb_eq in E. subst. simpl. intuition.
    + simpl. rewrite IH. intuition.
Qed.

Lemma keyed_MergeInv (C : list EnhancedSearchResult) :
  NoDup (map Search.key_of C) -> MergeInv C (keyed C).
Proof.
  intros Hnd. unfold keyed. split; [|split].
  - now rewrite map_map.
  - intros k v Hin. apply in_map_iff in Hin as [c [Hc HcC]]. inversion Hc; subst.
    split; [reflexivity|split; [exact HcC|]].
    intros c' Hc' Hk.
    assert (c' = v).
    { clear Hc. induction C as [|x C IHC]; [destruct HcC|].
      inversion Hnd as [|? ? Hx Hnd']; subst.
      destruct HcC as [->|HcC], Hc' as [->|Hc']; auto.
      - exfalso. apply Hx. rewrite <- Hk. now apply in_map.
      - exfalso. apply Hx. rewrite Hk. now apply in_map. }
    subst. apply Qle_refl.
  - intros c Hc. rewrite map_map. now apply (in_map Search.key_of).
Qed.

Lemma merge_step_MergeInv (P : list EnhancedSearchResult)
    (R : list (string * EnhancedSearchResult)) (item : EnhancedSearchResult) :
  MergeInv P R -> MergeInv (P ++ [item]) (Search.merge_step R item).
Proof.
  intros [Hnd [Hent Hcov]].
  set (k := Search.key_of item).
  assert (HinP : forall c, In c (P ++ [item]) <-> In c P \/ c = item).
  { intros c. rewrite in_app_iff. simpl. intuition. }
  unfold Search.merge_step. fold k.
  destruct (Search.map_get k R) as [old|] eqn:Hget.
  - apply map_get_In in Hget; [|exact Hnd].
    destruct (Hent k old Hget) as [Hko [HoP Hob]].
    destruct (Search.Qltb (_score old) (_score item)) eqn:Hlt.
    + apply Qltb_true in Hlt.
      split; [|split].
      * now apply map_set_nodup.
      * intros k' v' Hin. apply map_set_In_iff in Hin; [|exact Hnd].
        destruct Hin as [[-> ->]|[Hne Hin]].
        -- split; [reflexivity|split; [apply HinP; now right|]].
           intros c Hc Hkc. apply HinP in Hc as [Hc| ->]; [|apply Qle_refl].
           apply Qle_trans with (_score old); [now apply Hob|now apply Qlt_le_weak].
        -- destruct (Hent k' v' Hin) as [Hk' [Hv' Hb]].
           split; [exact Hk'|split; [apply HinP; now left|]].
           intros c Hc Hkc. apply HinP in Hc as [Hc| ->]; [now apply Hb|].
           exfalso. apply Hne. now rewrite <- Hkc.
      * intros c Hc. apply map_set_keys_In. apply HinP in Hc as [Hc| ->]; [|now left].
        right. now apply Hcov.
    + apply Qltb_false in Hlt.
      split; [exact Hnd|split].
      * intros k' v' Hin. destruct (Hent k' v' Hin) as [Hk' [Hv' Hb]].
        split; [exact Hk'|split; [apply HinP; now left|]].
        intros c Hc Hkc. apply HinP in Hc as [Hc| ->]; [now apply Hb|].
        assert (k' = k) by (rewrite <- Hkc; reflexivity). subst k'.
        assert (v' = old).
        { apply map_get_In in Hin; [|exact Hnd]. apply map_get_In in Hget; [|exact Hnd].
          congruence. }
        subst. exact Hlt.
      * intros c Hc. apply HinP in Hc as [Hc| ->]; [now apply Hcov|].
        now apply (in_map fst) in Hget.
  - apply map_get_None_iff in Hget.
    split; [|split].
    + now apply map_set_nodup.
    + intros k' v' Hin. apply map_set_In_iff in Hin; [|exact Hnd].
      destruct Hin as [[-> ->]|[Hne Hin]].
      * split; [reflexivity|split; [apply HinP; now right|]].
        intros c Hc Hkc. apply HinP in Hc as [Hc| ->]; [|apply Qle_refl].
        exfalso. apply Hget. rewrite <- Hkc. now apply Hcov.
      * destruct (Hent k' v' Hin) as [Hk' [Hv' Hb]].
        split; [exact Hk'|split; [apply HinP; now left|]].
        intros c Hc Hkc. apply HinP in Hc as [Hc| ->]; [now apply Hb|].
        exfalso. apply Hne. now rewrite <- Hkc.
    + intros c Hc. apply map_set_keys_In. apply HinP in Hc as [Hc| ->]; [|now left].
      right. now apply Hcov.
Qed.

Lemma merge_fold_MergeInv (L P : list EnhancedSearchResult)
    (R : list (string * EnhancedSearchResult)) :
  MergeInv P R -> MergeInv (P ++ L) (fold_left Search.merge_step L R).
Proof.
  revert P R. induction L as [|x L IH]; intros P R H; simpl.
  - now rewrite app_nil_r.
  - replace (P ++ x :: L) with ((P ++ [x]) ++ L) by now rewrite <- app_assoc.
    apply IH. now apply merge_step_MergeInv.
Qed.

Lemma slice0_firstn {A} (limit : Z) (l : list A) :
  exists n, Search.slice0 limit l = firstn n l /\
            ((0 <= limit)%Z -> (Z.of_nat n <= limit)%Z).
Proof.
  unfold Search.slice0. destruct (0 <=? limit)%Z eqn:E.
  - exists (Z.to_nat limit). split; [reflexivity|]. intros. lia.
  - exists (Z.to_nat (Z.of_nat (length l) + limit)). split; [reflexivity|].
    intros. apply Z.leb_nle in E. lia.
Qed.

Lemma NoDup_map_coarser {A B C} (f : A -> B) (g : A -> C) (l : list A) :
  (forall x y, In x l -> In y l -> g x = g y -> f x = f y) ->
  NoDup (map f l) -> NoDup (map g l).
Proof.
  induction l as [|x l IH]; simpl; intros Hfg Hnd; [constructor|].
  inversion Hnd as [|? ? Hx Hnd']; subst. constructor.
  - intros Hin. apply in_map_iff in Hin as [y [Hy Hyl]]. apply Hx.
    rewrite (Hfg x y (or_introl eq_refl) (or_intror Hyl) (eq_sym Hy)). now apply in_map.
  - apply IH; [|exact Hnd']. intros a b Ha Hb. apply Hfg; now right.
Qed.

Lemma key_of_pair (x y : EnhancedSearchResult) :
  pair_of x = pair_of y -> Search.key_of x = Search.key_of y.
Proof. unfold pair_of, Search.key_of. intros H. inversion H. now rewrite H1, H2. Qed.

End MergeFacts.

(** Claim C6. A failed enrichment call (network error, non-2xx status,
    malformed body) is not a no-op: it acts exactly as a successful response
    whose search terms are [[query]], so the caller re-runs the search on
    the query itself. Whatever the outcome, the result set is either kept or
    replaced by a re-search over non-empty terms that returned strictly
    more results. *)
Theorem enrich_failure_is_research {A} (searchAgain : string -> option (list A))
    (query : string) (results : list A) (o : Enrichment.FetchOutcome) :
  (Enrichment.is_failure o = true ->
   Enrichment.enrich searchAgain query results o =
   Enrichment.enrich searchAgain query results
     (Enrichment.JsonBody true (Enrichment.mkAi (Some [query])) None)) /\
  (Enrichment.enrich searchAgain query results o = results \/
   exists terms enhanced, terms <> [] /\
     searchAgain (Search.join " " terms) = Some enhanced /\
     length results < length enhanced /\
     Enrichment.enrich searchAgain query results o = enhanced)%nat.
Proof.
  split.
  - intros Hfail. destruct o; [reflexivity|reflexivity|reflexivity|discriminate].
  - unfold Enrichment.enrich.
    destruct (Nat.ltb 8 (String.length query) && Nat.ltb (length results) 5);
      [|now left].
    destruct (Enrichment.aiEnhancedSearch query o) as [a|]; [|now left].
    destruct (Enrichment.ai_searchTerms a) as [[|t ts]|]; try now left.
    destruct (searchAgain (Search.join " " (t :: ts))) as [enhanced|] eqn:E; [|now left].
    destruct (Nat.ltb (length results) (length enhanced)) eqn:L; [|now left].
    right. exists (t :: ts), enhanced.
    split; [discriminate|]. split; [exact E|]. split; [now apply Nat.ltb_lt|reflexivity].
Qed.

Lemma enrich_failure_is_research_witness :
  Enrichment.is_failure Enrichment.NetworkError = true /\
  Enrichment.enrich (fun _ => Some [tt]) "temple in kyoto" [] Enrichment.NetworkError =
  Enrichment.enrich (fun _ => Some [tt]) "temple in kyoto" []
    (Enrichment.JsonBody true (Enrichment.mkAi (Some ["temple in kyoto"])) None).
Proof.
  split; [reflexivity|].
  exact (proj1 (enrich_failure_is_research (fun _ => Some [tt]) "temple in kyoto" []
                  Enrichment.NetworkError) eq_refl).
Defined.

(** On a network error with no local results, a re-search that finds one
    record replaces the (empty) local result set. *)
Lemma enrich_network_error_replaces :
  Enrichment.enrich (fun q => if String.eqb q "temple in kyoto" then Some [tt] else None)
    "temple in kyoto" [] Enrichment.NetworkError = [tt].
Proof. vm_compute. reflexivity. Qed.

(** ** Retrieval: structure of a returning call *)

Section RetrievalFacts.
Local Open Scope list_scope.

Lemma bind_some {A B} (m : Search.M A) (k : A -> Search.M B)
    (st : Search.IndexState) (b : B) (st' : Search.IndexState) :
  Search.bind m k st = Some (b, st') ->
  exists a st1, m st = Some (a, st1) /\ k a st1 = Some (b, st').
Proof.
  unfold Search.bind. destruct (m st) as [[a st1]|]; [|discriminate].
  intros H. now exists a, st1.
Qed.

Lemma fuse_search_scores
    (fuse_match : SearchableItem -> string -> option (Q * list (option string)))
    (docs : list SearchableItem) (q : string) (l : Z) (fr : Search.FuseResult) :
  In fr (Search.fuse_search fuse_match docs q l) ->
  exists d sc ms, In d docs /\ fuse_match d q = Some (sc, ms) /\
                  fr = Search.mkFuseResult d (Some sc) (Some ms).
Proof.
  intros H. unfold Search.fuse_search in H.
  assert (Hh : In fr (Search.fuse_hits fuse_match docs q)).
  { eapply Permutation_in; [apply sort_by_perm|].
    destruct (-1 <? l)%Z; [eapply firstn_In; exact H|exact H]. }
  unfold Search.fuse_hits in Hh. apply in_flat_map in Hh as [d [Hd Hfr]].
  destruct (fuse_match d q) as [[sc ms]|] eqn:E; [|destruct Hfr].
  destruct Hfr as [<-|[]]. now exists d, sc, ms.
Qed.

Lemma fuzzy_tier_values
    (fuse_match : SearchableItem -> string -> option (Q * list (option string)))
    (q : string) (mods : option (list string)) (lim : Z) (th : Q)
    (insts : list (string * list SearchableItem)) (k : string) (v : EnhancedSearchResult) :
  In (k, v) (Search.fuzzy_tier fuse_match q mods lim th insts) ->
  In v (fuzzy_candidates fuse_match q mods lim th insts).
Proof.
  set (C := fuzzy_candidates fuse_match q mods lim th insts).
  assert (Hinner : forall inst frs acc,
            In inst insts -> Search.module_selected mods (fst inst) = true ->
            (forall fr, In fr frs -> In fr (Search.fuse_search fuse_match (snd inst) q lim)) ->
            (forall k v, In (k, v) acc -> In v C) ->
            forall k v, In (k, v) (fold_left (Search.fuzzy_step q th (fst inst)) frs acc) ->
                        In v C).
  { intros inst frs. induction frs as [|fr frs IH]; intros acc Hi Hsel Hfrs Hacc; simpl.
    - exact Hacc.
    - apply IH; [exact Hi|exact Hsel|intros; apply Hfrs; now right|].
      intros k' v' Hkv. unfold Search.fuzzy_step in Hkv. cbv zeta in Hkv.
      destruct (Qle_bool th (Search.fuzzy_score fr) && _) eqn:E; [|now apply (Hacc k')].
      apply map_set_In in Hkv as [Heq|Hkv]; [|now apply (Hacc k')].
      inversion Heq; subst v'. unfold C, fuzzy_candidates. apply in_flat_map.
      exists inst. split; [exact Hi|]. rewrite Hsel. apply in_map.
      apply filter_In. split; [apply Hfrs; now left|].
      now apply andb_true_iff in E as [E _]. }
  unfold Search.fuzzy_tier.
  assert (Houter : forall l acc, (forall i, In i l -> In i insts) ->
            (forall k v, In (k, v) acc -> In v C) ->
            forall k v, In (k, v) (fold_left
              (fun results inst =>
                 if Search.module_selected mods (fst inst)
                 then fold_left (Search.fuzzy_step q th (fst inst))
                        (Search.fuse_search fuse_match (snd inst) q lim) results
                 else results) l acc) -> In v C).
  { induction l as [|i l IH]; intros acc Hl Hacc; simpl; [exact Hacc|].
    apply IH; [intros; apply Hl; now right|].
    destruct (Search.module_selected mods (fst i)) eqn:Hsel; [|exact Hacc].
    apply Hinner; auto. apply Hl. now left. }
  apply (Houter insts []); [auto|intros ? ? []].
Qed.

Lemma merge_values (L : list EnhancedSearchResult) (R : list (string * EnhancedSearchResult))
    (k : string) (v : EnhancedSearchResult) :
  In (k, v) (fold_left Search.merge_step L R) -> In (k, v) R \/ In v L.
Proof.
  revert R. induction L as [|x L IH]; intros R H; simpl in H; [now left|].
  apply IH in H as [H|H]; [|right; now right].
  unfold Search.merge_step in H.
  destruct (Search.map_get (Search.key_of x) R) as [old|];
    [destruct (Search.Qltb (_score old) (_score x))|];
    try (now left);
    (apply map_set_In in H as [Heq|H]; [inversion Heq; right; now left|now left]).
Qed.

Lemma slice0_In {A} (limit : Z) (l : list A) (x : A) : In x (Search.slice0 limit l) -> In x l.
Proof. destruct (slice0_firstn limit l) as [n [-> _]]. apply firstn_In. Qed.

Variable fuse_match : SearchableItem -> string -> option (Q * list (option string)).
Variable pos_nouns pos_adjectives pos_people pos_places : string -> list string.
Variable iso_last_week iso_month_start : string.
Variable db : string -> option (list SearchableItem).
Variable now : Z.

Local Notation search :=
  (Search.search fuse_match pos_nouns pos_adjectives pos_people pos_places
     iso_last_week iso_month_start db now).
Local Notation parse :=
  (Search.parse pos_nouns pos_adjectives pos_people pos_places iso_last_week iso_month_start).
Local Notation refreshed := (Search.refreshed db now).

Lemma search_unfold (fuel : nat) (q : string) (opts : Search.SearchOptions)
    (st st' : Search.IndexState) (r : list EnhancedSearchResult) :
  search (S fuel) q opts st = Some (r, st') ->
  exists nlp,
    Search.searchWithNLP (search fuel) (parse q) (Search.o_modules opts) (refreshed st)
      = Some (nlp, st') /\
    r = Search.slice0 (Search.opt_limit opts)
          (Search.sort_desc (Search.map_values
             (Search.fused fuse_match q (Search.o_modules opts) (Search.opt_limit opts)
                (Search.opt_threshold opts) (refreshed st) nlp))).
Proof.
  intros Hrun. cbn [Search.search] in Hrun.
  unfold Search.bind, Search.refresh_index, Search.get, Search.put, Search.ret in Hrun.
  unfold Search.bind in Hrun.
  destruct (Search.searchWithNLP (search fuel) (parse q) (Search.o_modules opts) (refreshed st))
    as [[nlp st1]|]; [|discriminate].
  inversion Hrun; subst. now exists nlp.
Qed.

Lemma searchWithNLP_cases (srch : string -> Search.SearchOptions -> Search.M (list EnhancedSearchResult))
    (pq : NLP.SearchQuery) (mods : option (list string))
    (st st' : Search.IndexState) (nlp : list EnhancedSearchResult) :
  Search.searchWithNLP srch pq mods st = Some (nlp, st') ->
  (NLP.searchTerms pq = [] /\ nlp = [] /\ st' = st) \/
  (exists inner, NLP.searchTerms pq <> [] /\
     srch (Search.join " " (NLP.searchTerms pq)) (Search.mkOptions mods (Some 10%Z) None) st
       = Some (inner, st') /\
     nlp = map (Search.scale_tag (3 # 5) "nlp") inner).
Proof.
  unfold Search.searchWithNLP. destruct (NLP.searchTerms pq) as [|t ts].
  - unfold Search.ret. intros H. inversion H. left. auto.
  - intros H. apply bind_some in H as [inner [st1 [H1 H2]]].
    unfold Search.ret in H2. inversion H2; subst. right. exists inner.
    split; [discriminate|]. auto.
Qed.

Lemma search_origin (fuel : nat) (q : string) (opts : Search.SearchOptions)
    (st st' : Search.IndexState) (r : list EnhancedSearchResult) :
  search (S fuel) q opts st = Some (r, st') ->
  exists nlp,
    Search.searchWithNLP (search fuel) (parse q) (Search.o_modules opts) (refreshed st)
      = Some (nlp, st') /\
    forall x, In x r ->
      In x (fuzzy_candidates fuse_match q (Search.o_modules opts) (Search.opt_limit opts)
              (Search.opt_threshold opts) (Search.fuseInstances (refreshed st))) \/
      In x nlp.
Proof.
  intros Hrun. apply search_unfold in Hrun as [nlp [Hnlp ->]].
  exists nlp. split; [exact Hnlp|]. intros x Hx.
  apply slice0_In in Hx. apply (Permutation_in _ (sort_by_perm _ _)) in Hx.
  unfold Search.map_values in Hx. apply in_map_iff in Hx as [[k v] [Hv Hkv]].
  simpl in Hv. subst v. unfold Search.fused in Hkv.
  apply merge_values in Hkv as [Hkv|Hkv]; [left|now right].
  eapply fuzzy_tier_values. exact Hkv.
Qed.

Lemma search_length (fuel : nat) (q : string) (opts : Search.SearchOptions)
    (st st' : Search.IndexState) (r : list EnhancedSearchResult) :
  search fuel q opts st = Some (r, st') ->
  (0 <= Search.opt_limit opts)%Z -> (Z.of_nat (length r) <= Search.opt_limit opts)%Z.
Proof.
  destruct fuel as [|fuel]; [discriminate|].
  intros Hrun Hl. apply search_unfold in Hrun as [nlp [_ ->]].
  match goal with |- context [Search.slice0 _ ?l] =>
    destruct (slice0_firstn (Search.opt_limit opts) l) as [n [-> Hn]] end.
  rewrite length_firstn. specialize (Hn Hl). lia.
Qed.

Lemma refreshed_idem (st : Search.IndexState) : refreshed (refreshed st) = refreshed st.
Proof.
  destruct (Search.indexUpdateInterval <? now - Search.lastIndexUpdate st)%Z eqn:E.
  - assert (Hr : refreshed st = Search.buildSearchIndex db now st)
      by (unfold Search.refreshed; now rewrite E).
    rewrite Hr, buildSearchIndex_eq. unfold Search.refreshed.
    cbn [Search.lastIndexUpdate]. replace (now - now)%Z with 0%Z by lia. reflexivity.
  - assert (Hr : refreshed st = st) by (unfold Search.refreshed; now rewrite E).
    now rewrite !Hr.
Qed.

Lemma search_state (fuel : nat) :
  forall q opts st st' r, search fuel q opts st = Some (r, st') -> st' = refreshed st.
Proof.
  induction fuel as [|fuel IH]; intros q opts st st' r Hrun; [discriminate|].
  apply search_unfold in Hrun as [nlp [Hnlp _]].
  apply searchWithNLP_cases in Hnlp as [[_ [_ ->]]|[inner [_ [Hin _]]]]; [reflexivity|].
  apply IH in Hin. rewrite Hin. apply refreshed_idem.
Qed.

Lemma insert_desc_sorted (x : EnhancedSearchResult) (l : list EnhancedSearchResult) :
  Sorted (fun a b => Qle (_score b) (_score a)) l ->
  Sorted (fun a b => Qle (_score b) (_score a))
    (Search.insert_by (fun a b => Search.Qltb (_score b) (_score a)) x l).
Proof.
  induction l as [|a l IH]; intros Hs; simpl; [repeat constructor|].
  destruct (Search.Qltb (_score a) (_score x)) eqn:E.
  - constructor; [exact Hs|]. constructor. apply Qlt_le_weak. now apply Qltb_true.
  - apply Qltb_false in E. apply Sorted_inv in Hs as [Hl Hh].
    constructor; [now apply IH|].
    destruct l as [|b l']; simpl; [now constructor|].
    destruct (Search.Qltb (_score b) (_score x)); constructor; [exact E|].
    now inversion Hh.
Qed.

Lemma sort_desc_sorted (l : list EnhancedSearchResult) :
  Sorted (fun a b => Qle (_score b) (_score a)) (Search.sort_desc l).
Proof.
  unfold Search.sort_desc, Search.sort_by.
  assert (H : forall l acc, Sorted (fun a b => Qle (_score b) (_score a)) acc ->
            Sorted (fun a b => Qle (_score b) (_score a))
              (fold_left (fun acc x => Search.insert_by
                            (fun a b => Search.Qltb (_score b) (_score a)) x acc) l acc)).
  { induction l0 as [|x l0 IH]; intros acc Hacc; simpl; [exact Hacc|].
    apply IH. now apply insert_desc_sorted. }
  apply H. constructor.
Qed.

Lemma Sorted_firstn {A} (R : A -> A -> Prop) (n : nat) (l : list A) :
  Sorted R l -> Sorted R (firstn n l).
Proof.
  revert n. induction l as [|a l IH]; intros [|n] Hs; simpl; try constructor.
  - apply Sorted_inv in Hs as [Hl _]. now apply IH.
  - apply Sorted_inv in Hs as [_ Hh]. destruct l as [|b l], n as [|n]; simpl;
      constructor. now inversion Hh.
Qed.

Lemma search_sorted (fuel : nat) (q : string) (opts : Search.SearchOptions)
    (st st' : Search.IndexState) (r : list EnhancedSearchResult) :
  search fuel q opts st = Some (r, st') ->
  Sorted (fun a b => Qle (_score b) (_score a)) r.
Proof.
  destruct fuel as [|fuel]; [discriminate|].
  intros Hrun. apply search_unfold in Hrun as [nlp [_ ->]].
  match goal with |- context [Search.slice0 _ ?l] =>
    destruct (slice0_firstn (Search.opt_limit opts) l) as [n [-> _]] end.
  apply Sorted_firstn, sort_desc_sorted.
Qed.

Lemma fuzzy_candidate_selected (q : string) (mods : option (list string)) (lim : Z) (th : Q)
    (insts : list (string * list SearchableItem)) (c : EnhancedSearchResult) :
  In c (fuzzy_candidates fuse_match q mods lim th insts) ->
  exists inst fr, In inst insts /\ Search.module_selected mods (fst inst) = true /\
    In fr (Search.fuse_search fuse_match (snd inst) q lim) /\
    c = Search.fuzzy_result q fr.
Proof.
  unfold fuzzy_candidates. intros H. apply in_flat_map in H as [inst [Hi Hc]].
  destruct (Search.module_selected mods (fst inst)) eqn:Hsel; [|destruct Hc].
  apply in_map_iff in Hc as [fr [<- Hfr]]. apply filter_In in Hfr as [Hfr _].
  exists inst, fr. auto.
Qed.

Section ScoreBound.
(** Fuse.js reports distances in [0, 1]. *)
Hypothesis fuse_nonneg : forall d q sc ms, fuse_match d q = Some (sc, ms) -> Qle 0 sc.

Lemma search_score_le (fuel : nat) :
  forall q opts st st' r, search fuel q opts st = Some (r, st') ->
  forall x, In x r -> Qle (_score x) (4 # 5).
Proof.
  induction fuel as [|fuel IH]; intros q opts st st' r Hrun; [discriminate|].
  apply search_origin in Hrun as [nlp [Hnlp Hr]].
  intros x Hx. destruct (Hr x Hx) as [Hc|Hc].
  - apply fuzzy_candidate_selected in Hc as [inst [fr [_ [_ [Hfr ->]]]]].
    apply fuse_search_scores in Hfr as [d [sc [ms [_ [Hm ->]]]]].
    apply fuse_nonneg in Hm. unfold Search.fuzzy_result, Search.fuzzy_score. simpl. lra.
  - apply searchWithNLP_cases in Hnlp as [[_ [-> _]]|[inner [_ [Hin ->]]]]; [destruct Hc|].
    apply in_map_iff in Hc as [y [<- Hy]].
    pose proof (IH _ _ _ _ _ Hin y Hy). unfold Search.scale_tag. simpl. lra.
Qed.

End ScoreBound.

Lemma search_modules_gen (Hdb : db_wf db = true) (ms : list string) (fuel : nat) :
  forall q opts st st' r,
  WfIndex (Search.fuseInstances st) -> Search.o_modules opts = Some ms ->
  search fuel q opts st = Some (r, st') ->
  forall x, In x r -> In (_type (r_item x)) ms.
Proof.
  induction fuel as [|fuel IH]; intros q opts st st' r Hwf Hms Hrun; [discriminate|].
  assert (Hwf' : WfIndex (Search.fuseInstances (refreshed st)))
    by (apply refreshed_WfIndex; assumption).
  apply search_origin in Hrun as [nlp [Hnlp Hr]].
  intros x Hx. destruct (Hr x Hx) as [Hc|Hc].
  - apply fuzzy_candidate_selected in Hc as [inst [fr [Hi [Hsel [Hfr ->]]]]].
    destruct Hwf' as [_ Hent]. destruct (Hent inst Hi) as [_ [Hty _]].
    simpl. rewrite Hty by (eapply (proj1 (fuse_search_docs fuse_match _ _ _)); exact Hfr).
    rewrite Hms in Hsel. simpl in Hsel. apply existsb_exists in Hsel as [m [Hm Heq]].
    apply String.eqb_eq in Heq. now subst.
  - apply searchWithNLP_cases in Hnlp as [[_ [-> _]]|[inner [_ [Hin ->]]]]; [destruct Hc|].
    apply in_map_iff in Hc as [y [<- Hy]]. simpl.
    eapply IH; [exact Hwf'| |exact Hin|exact Hy]. simpl. exact Hms.
Qed.

Lemma searchWithNLP_shape (fuel : nat) (pq : NLP.SearchQuery) (mods : option (list string))
    (st st' : Search.IndexState) (nlp : list EnhancedSearchResult) :
  Search.searchWithNLP (search fuel) pq mods st = Some (nlp, st') ->
  (length nlp <= 10)%nat /\
  (NLP.searchTerms pq = [] -> nlp = []) /\
  forall x, In x nlp -> exists y, x = Search.scale_tag (3 # 5) "nlp" y.
Proof.
  intros H. apply searchWithNLP_cases in H as [[Ht [-> _]]|[inner [Ht [Hin ->]]]].
  - split; [simpl; lia|]. split; [reflexivity|intros ? []].
  - split; [|split; [intros; contradiction|]].
    + rewrite length_map. pose proof (search_length _ _ _ _ _ _ Hin) as Hl.
      unfold Search.opt_limit in Hl. cbn [Search.o_limit] in Hl.
      specialize (Hl ltac:(lia)). lia.
    + intros x Hx. apply in_map_iff in Hx as [y [<- _]]. now exists y.
Qed.

Lemma searchByEntity_shape (fuel : nat) (et : string) (ents : list string) :
  forall st st' r,
  Search.searchByEntity (search fuel) et ents st = Some (r, st') ->
  (length r <= 5 * length ents)%nat /\
  forall x, In x r -> exists y, x = Search.scale_tag (7 # 10) et y.
Proof.
  induction ents as [|e ents IH]; intros st st' r H; simpl in H.
  - unfold Search.ret in H. inversion H; subst. split; [simpl; lia|intros ? []].
  - apply bind_some in H as [er [s1 [H1 H2]]].
    apply bind_some in H2 as [others [s2 [H2 H3]]].
    unfold Search.ret in H3. inversion H3; subst. clear H3.
    destruct (IH _ _ _ H2) as [Hl Hx].
    pose proof (search_length _ _ _ _ _ _ H1) as Hl1.
    unfold Search.opt_limit in Hl1. cbn [Search.o_limit] in Hl1.
    specialize (Hl1 ltac:(lia)).
    split.
    + rewrite length_app, length_map. simpl. lia.
    + intros x Hin. apply in_app_or in Hin as [Hin|Hin]; [|now apply Hx].
      apply in_map_iff in Hin as [y [<- _]]. now exists y.
Qed.

Lemma searchByFilters_shape (Hdb : db_wf db = true) (fuel : nat) (f : NLP.Filters)
    (st st' : Search.IndexState) (r : list EnhancedSearchResult) :
  WfIndex (Search.fuseInstances st) ->
  Search.searchByFilters (search fuel) f st = Some (r, st') ->
  (length r <= 15)%nat /\
  forall x, In x r ->
    (exists y, x = Search.scale_tag (4 # 5) "location" y) \/
    (exists y, x = Search.scale_tag (9 # 10) "person" y /\ _type (r_item y) = "people").
Proof.
  intros Hwf H. unfold Search.searchByFilters in H.
  apply bind_some in H as [lr [s1 [H1 H2]]].
  apply bind_some in H2 as [pr [s2 [H2 H3]]].
  unfold Search.ret in H3. inversion H3; subst. clear H3.
  assert (Hloc : (length lr <= 10)%nat /\ (s1 = st \/ s1 = refreshed st) /\
                 forall x, In x lr -> exists y, x = Search.scale_tag (4 # 5) "location" y).
  { destruct (Search.truthy (NLP.f_location f)) as [loc|].
    - apply bind_some in H1 as [rs [s0 [Hs Hret]]]. unfold Search.ret in Hret.
      inversion Hret; subst. split; [|split].
      + rewrite length_map. pose proof (search_length _ _ _ _ _ _ Hs) as Hl.
        unfold Search.opt_limit in Hl. cbn [Search.o_limit] in Hl.
        specialize (Hl ltac:(lia)). lia.
      + right. eapply search_state. exact Hs.
      + intros x Hx. apply in_map_iff in Hx as [y [<- _]]. now exists y.
    - unfold Search.ret in H1. inversion H1; subst. split; [simpl; lia|].
      split; [now left|intros ? []]. }
  destruct Hloc as [Hl1 [Hs1 Hx1]].
  assert (Hwf1 : WfIndex (Search.fuseInstances s1))
    by (destruct Hs1 as [->| ->]; [exact Hwf|now apply refreshed_WfIndex]).
  assert (Hper : (length pr <= 5)%nat /\
                 forall x, In x pr -> exists y, x = Search.scale_tag (9 # 10) "person" y /\
                                                _type (r_item y) = "people").
  { destruct (Search.truthy (NLP.f_person f)) as [p|].
    - apply bind_some in H2 as [rs [s0 [Hs Hret]]]. unfold Search.ret in Hret.
      inversion Hret; subst. split.
      + rewrite length_map. pose proof (search_length _ _ _ _ _ _ Hs) as Hl.
        unfold Search.opt_limit in Hl. cbn [Search.o_limit] in Hl.
        specialize (Hl ltac:(lia)). lia.
      + intros x Hx. apply in_map_iff in Hx as [y [<- Hy]]. exists y. split; [reflexivity|].
        assert (Hin : In (_type (r_item y)) ["people"])
          by exact (search_modules_gen Hdb ["people"] fuel p
                      (Search.mkOptions (Some ["people"]) (Some 5%Z) None) s1 st' rs
                      Hwf1 eq_refl Hs y Hy).
        now destruct Hin as [<-|[]].
    - unfold Search.ret in H2. inversion H2; subst. split; [simpl; lia|intros ? []]. }
  destruct Hper as [Hl2 Hx2]. split.
  - rewrite length_app. lia.
  - intros x Hx. apply in_app_or in Hx as [Hx|Hx]; [left; now apply Hx1|right; now apply Hx2].
Qed.

Lemma semanticSearch_shape (fuel : nat) (q : string) (mods : option (list string))
    (st st' : Search.IndexState) (r : list EnhancedSearchResult) :
  Search.semanticSearch fuse_match pos_nouns pos_adjectives pos_people pos_places
    iso_last_week iso_month_start db now fuel q mods st = Some (r, st') ->
  NoDup (map pair_of r) /\
  Sorted (fun a b => Qle (_score b) (_score a)) r /\
  forall x, In x r -> Search.module_selected mods (_type (r_item x)) = true.
Proof.
  unfold Search.semanticSearch. cbv zeta. intros H.
  apply bind_some in H as [pr [s1 [_ H]]]. cbv beta in H.
  apply bind_some in H as [plr [s2 [_ H]]]. cbv beta in H.
  apply bind_some in H as [fr [s3 [_ H]]]. cbv beta in H.
  unfold Search.ret in H. inversion H; subst. clear H.
  set (all := app pr (app plr fr)).
  assert (Hinv : MergeInv all (fold_left Search.merge_step all [])).
  { change all with (app [] all). apply merge_fold_MergeInv.
    split; [constructor|split; [intros ? ? []|intros ? []]]. }
  destruct Hinv as [Rnd [Rent _]].
  set (R := fold_left Search.merge_step all []) in *.
  split; [|split].
  - apply (Permutation_NoDup (Permutation_map pair_of (Permutation_sym (sort_by_perm _ _)))).
    apply NoDup_map_filter. unfold Search.map_values.
    apply (NoDup_map_coarser Search.key_of).
    + intros x y _ _ Hxy. now apply key_of_pair.
    + rewrite map_map. rewrite (map_ext_in _ fst); [exact Rnd|].
      intros [k v] Hkv. simpl. symmetry. apply (Rent k v Hkv).
  - apply sort_desc_sorted.
  - intros x Hx. apply (Permutation_in _ (sort_by_perm _ _)) in Hx.
    now apply filter_In in Hx as [_ Hx].
Qed.

Lemma searchWithNLP_parts (fuel : nat) (pq : NLP.SearchQuery) (mods : option (list string))
    (st st' : Search.IndexState) (nlp : list EnhancedSearchResult) :
  Search.searchWithNLP (search fuel) pq mods st = Some (nlp, st') ->
  (NLP.searchTerms pq = [] /\ nlp = [] /\ st' = st) \/
  (exists inner, NLP.searchTerms pq <> [] /\
     search fuel (Search.join " " (NLP.searchTerms pq)) (Search.mkOptions mods (Some 10%Z) None) st
       = Some (inner, st') /\
     (length inner <= 10)%nat /\ nlp = map (Search.scale_tag (3 # 5) "nlp") inner).
Proof.
  intros H. apply searchWithNLP_cases in H as [H|[inner [Hne [Hin ->]]]]; [now left|right].
  exists inner. split; [exact Hne|]. split; [exact Hin|]. split; [|reflexivity].
  pose proof (search_length _ _ _ _ _ _ Hin) as Hl.
  unfold Search.opt_limit in Hl. cbn [Search.o_limit] in Hl. specialize (Hl ltac:(lia)). lia.
Qed.

Lemma searchByEntity_parts (fuel : nat) (et : string) (ents : list string) :
  forall st st' r,
  Search.searchByEntity (search fuel) et ents st = Some (r, st') ->
  exists rss,
    Forall2 (fun e rs => exists s s', search fuel e (Search.mkOptions None (Some 5%Z) None) s
                                        = Some (rs, s') /\ (length rs <= 5)%nat) ents rss /\
    r = concat (map (map (Search.scale_tag (7 # 10) et)) rss).
Proof.
  induction ents as [|e ents IH]; intros st st' r H; simpl in H.
  - unfold Search.ret in H. inversion H; subst. exists []. split; [constructor|reflexivity].
  - apply bind_some in H as [er [s1 [H1 H2]]].
    apply bind_some in H2 as [others [s2 [H2 H3]]].
    unfold Search.ret in H3. inversion H3; subst. clear H3.
    destruct (IH _ _ _ H2) as [rss [HF ->]].
    exists (er :: rss). split; [|reflexivity].
    constructor; [|exact HF]. exists st, s1. split; [exact H1|].
    pose proof (search_length _ _ _ _ _ _ H1) as Hl.
    unfold Search.opt_limit in Hl. cbn [Search.o_limit] in Hl. specialize (Hl ltac:(lia)). lia.
Qed.

Lemma searchByFilters_parts (Hdb : db_wf db = true) (fuel : nat) (f : NLP.Filters)
    (st st' : Search.IndexState) (r : list EnhancedSearchResult) :
  WfIndex (Search.fuseInstances st) ->
  Search.searchByFilters (search fuel) f st = Some (r, st') ->
  exists lr pr s1,
    r = app (map (Search.scale_tag (4 # 5) "location") lr)
            (map (Search.scale_tag (9 # 10) "person") pr) /\
    match Search.truthy (NLP.f_location f) with
    | Some loc => search fuel loc (Search.mkOptions None (Some 10%Z) None) st = Some (lr, s1) /\
                  (length lr <= 10)%nat
    | None => lr = [] /\ s1 = st
    end /\
    match Search.truthy (NLP.f_person f) with
    | Some p => search fuel p (Search.mkOptions (Some ["people"]) (Some 5%Z) None) s1
                  = Some (pr, st') /\
                (length pr <= 5)%nat /\ forall y, In y pr -> _type (r_item y) = "people"
    | None => pr = [] /\ st' = s1
    end.
Proof.
  intros Hwf H. unfold Search.searchByFilters in H.
  apply bind_some in H as [lr0 [s1 [H1 H2]]].
  apply bind_some in H2 as [pr0 [s2 [H2 H3]]].
  unfold Search.ret in H3. inversion H3; subst. clear H3.
  assert (Hloc : exists lr, lr0 = map (Search.scale_tag (4 # 5) "location") lr /\
            (s1 = st \/ s1 = refreshed st) /\
            match Search.truthy (NLP.f_location f) with
            | Some loc => search fuel loc (Search.mkOptions None (Some 10%Z) None) st
                            = Some (lr, s1) /\ (length lr <= 10)%nat
            | None => lr = [] /\ s1 = st
            end).
  { destruct (Search.truthy (NLP.f_location f)) as [loc|].
    - apply bind_some in H1 as [rs [s0 [Hs Hret]]]. unfold Search.ret in Hret.
      inversion Hret; subst. exists rs. split; [reflexivity|]. split.
      + right. eapply search_state. exact Hs.
      + split; [exact Hs|]. pose proof (search_length _ _ _ _ _ _ Hs) as Hl.
        unfold Search.opt_limit in Hl. cbn [Search.o_limit] in Hl.
        specialize (Hl ltac:(lia)). lia.
    - unfold Search.ret in H1. inversion H1; subst. exists []. split; [reflexivity|].
      split; [now left|split; reflexivity]. }
  destruct Hloc as [lr [-> [Hs1 Hl]]].
  assert (Hwf1 : WfIndex (Search.fuseInstances s1))
    by (destruct Hs1 as [->| ->]; [exact Hwf|now apply refreshed_WfIndex]).
  destruct (Search.truthy (NLP.f_person f)) as [p|] eqn:Ep.
  - apply bind_some in H2 as [rs [s0 [Hs Hret]]]. unfold Search.ret in Hret.
    inversion Hret; subst. exists lr, rs, s1. split; [reflexivity|]. split; [exact Hl|].
    split; [exact Hs|]. split.
    + pose proof (search_length _ _ _ _ _ _ Hs) as Hl2.
      unfold Search.opt_limit in Hl2. cbn [Search.o_limit] in Hl2.
      specialize (Hl2 ltac:(lia)). lia.
    + intros y Hy.
      assert (Hin : In (_type (r_item y)) ["people"])
        by exact (search_modules_gen Hdb ["people"] fuel p
                    (Search.mkOptions (Some ["people"]) (Some 5%Z) None) s1 st' rs
                    Hwf1 eq_refl Hs y Hy).
      now destruct Hin as [<-|[]].
  - unfold Search.ret in H2. inversion H2; subst. exists lr, [], st'.
    split; [reflexivity|]. split; [exact Hl|split; reflexivity].
Qed.

End RetrievalFacts.

(** ** Index contents, searchable text, analyser output, enrichment *)

Section TextFacts.
Local Open Scope list_scope.

Lemma loaded_keys (db : string -> option (list SearchableItem)) (ss : list string)
    (m : list (string * list SearchableItem)) (k : string) :
  In k (map fst (loaded db ss m)) -> In k ss \/ In k (map fst m).
Proof.
  revert m. induction ss as [|s ss IH]; intros m H; simpl in H; [now right|].
  apply IH in H as [H|H]; [left; now right|].
  destruct (db s); [|now right].
  apply map_set_keys_In in H as [->|H]; [left; now left|now right].
Qed.

Lemma loaded_nodup (db : string -> option (list SearchableItem)) (ss : list string)
    (m : list (string * list SearchableItem)) :
  NoDup (map fst m) -> NoDup (map fst (loaded db ss m)).
Proof.
  revert m. induction ss as [|s ss IH]; intros m H; simpl; [exact H|].
  apply IH. destruct (db s); [now apply map_set_nodup|exact H].
Qed.

Lemma lower_char_idem (c : ascii) : JS.lower_char (JS.lower_char c) = JS.lower_char c.
Proof.
  unfold JS.lower_char. cbv zeta.
  destruct (Nat.leb 65 (nat_of_ascii c) && Nat.leb (nat_of_ascii c) 90) eqn:E.
  - apply andb_true_iff in E as [E1 E2].
    apply Nat.leb_le in E1. apply Nat.leb_le in E2.
    rewrite nat_ascii_embedding by lia.
    replace (Nat.leb (nat_of_ascii c + 32) 90) with false
      by (symmetry; apply Nat.leb_gt; lia).
    now rewrite andb_false_r.
  - now rewrite E.
Qed.

Lemma toLowerCase_idem (s : string) : JS.toLowerCase (JS.toLowerCase s) = JS.toLowerCase s.
Proof. induction s as [|c s IH]; simpl; [reflexivity|]. now rewrite lower_char_idem, IH. Qed.

Lemma toLowerCase_app (a b : string) :
  JS.toLowerCase (a ++ b) = (JS.toLowerCase a ++ JS.toLowerCase b)%string.
Proof. induction a as [|c a IH]; simpl; [reflexivity|]. now rewrite IH. Qed.

Lemma toLowerCase_length (s : string) : String.length (JS.toLowerCase s) = String.length s.
Proof. induction s as [|c s IH]; simpl; auto. Qed.

Lemma prefix_app (b c : string) : prefix b (b ++ c) = true.
Proof.
  induction b as [|x b IH]; simpl; [now destruct c|].
  destruct (ascii_dec x x); [exact IH|congruence].
Qed.

Lemma includes_prefix (s k : string) : prefix k s = true -> JS.includes s k = true.
Proof. intros H. destruct s; cbn [JS.includes]; now rewrite H. Qed.

Lemma includes_mid (a b c : string) : JS.includes (a ++ b ++ c) b = true.
Proof.
  induction a as [|x a IH].
  - change (JS.includes (b ++ c) b = true). apply includes_prefix, prefix_app.
  - simpl. rewrite IH. apply orb_true_r.
Qed.

Lemma append_empty_r (s : string) : (s ++ "")%string = s.
Proof. induction s as [|c s IH]; simpl; congruence. Qed.

Lemma append_assoc_str (a b c : string) : ((a ++ b) ++ c)%string = (a ++ b ++ c)%string.
Proof. induction a as [|x a IH]; simpl; congruence. Qed.

Lemma join_In (sep x : string) (l : list string) :
  In x l -> exists a c, Search.join sep l = (a ++ x ++ c)%string.
Proof.
  induction l as [|y l IH]; intros H; [destruct H|].
  destruct l as [|z l].
  - destruct H as [<-|[]]. exists "", "". simpl. now rewrite append_empty_r.
  - change (Search.join sep (y :: z :: l)) with (y ++ sep ++ Search.join sep (z :: l))%string.
    destruct H as [<-|H].
    + exists "", (sep ++ Search.join sep (z :: l))%string. reflexivity.
    + destruct (IH H) as [a [c ->]]. exists (y ++ sep ++ a)%string, c.
      now rewrite !append_assoc_str.
Qed.

Lemma or_str_nonempty (s : string) : s <> "" -> JS.or_str (Some s) "" = s.
Proof. intros H. simpl. destruct (String.eqb_spec s ""); congruence. Qed.

Lemma set_add_all_NoDup (xs s : list string) :
  NoDup s -> NoDup (NLP.set_add_all xs s).
Proof.
  unfold NLP.set_add_all. revert s.
  induction xs as [|x xs IH]; intros s H; simpl; [exact H|]. apply IH.
  unfold NLP.set_add. destruct (existsb (String.eqb x) s) eqn:E; [exact H|].
  apply NoDup_app; [exact H|repeat constructor; intros []|].
  intros y Hy [Heq|[]]. subst y. assert (existsb (String.eqb x) s = true)
    by (apply existsb_exists; exists x; split; [exact Hy|apply String.eqb_refl]).
  congruence.
Qed.

Lemma topics_labels (text t : string) :
  In t (NLP.extractTopics text) -> In t (map fst NLP.topicTable).
Proof.
  unfold NLP.extractTopics. intros H. apply set_add_all_In in H as [H|[]].
  apply in_map_iff in H as [e [<- He]]. apply filter_In in He as [He _].
  now apply in_map.
Qed.

Lemma categories_labels (text t : string) :
  In t (NLP.categorizeContent text) -> In t (map fst NLP.categoryMap).
Proof.
  unfold NLP.categorizeContent. intros H.
  apply in_map_iff in H as [e [<- He]]. apply filter_In in He as [He _].
  now apply in_map.
Qed.

End TextFacts.

(** ** Further properties of the retrieval code *)

(** X1. A call of [search] that returns gives its results in order of
    non-increasing score. *)
Theorem search_results_sorted
    (fuse_match : SearchableItem -> string -> option (Q * list (option string)))
    (pos_nouns pos_adjectives pos_people pos_places : string -> list string)
    (iso_last_week iso_month_start : string)
    (db : string -> option (list SearchableItem)) (now : Z)
    (fuel : nat) (query : string) (opts : Search.SearchOptions)
    (st st' : Search.IndexState) (r : list EnhancedSearchResult)
    (Hrun : Search.search fuse_match pos_nouns pos_adjectives pos_people pos_places
              iso_last_week iso_month_start db now fuel query opts st = Some (r, st')) :
  Sorted (fun a b => Qle (_score b) (_score a)) r.
Proof. exact (search_sorted _ _ _ _ _ _ _ _ _ _ _ _ _ _ _ Hrun). Qed.

Lemma search_results_sorted_witness :
  exists r st', search_zed 1 "zed" Search.noOptions = Some (r, st') /\
    Sorted (fun a b => Qle (_score b) (_score a)) r.
Proof.
  destruct (search_zed 1 "zed" Search.noOptions) as [[r st']|] eqn:Hrun;
    [|vm_compute in Hrun; discriminate].
  exists r, st'. split; [reflexivity|].
  exact (search_results_sorted fuse_065 (fun _ => []) (fun _ => []) (fun _ => [])
           (fun _ => []) "" "" (fun _ => None) 0%Z 1 "zed" Search.noOptions
           zed_state st' r Hrun).
Defined.

(** X3. When the fuzzy matcher reports distances that are not negative,
    every score returned by [search] is at most 0.8: fuzzy hits are scaled
    by 0.8 and NLP hits by 0.6 of a nested search's score. *)
Theorem search_scores_bounded
    (fuse_match : SearchableItem -> string -> option (Q * list (option string)))
    (pos_nouns pos_adjectives pos_people pos_places : string -> list string)
    (iso_last_week iso_month_start : string)
    (db : string -> option (list SearchableItem)) (now : Z)
    (fuel : nat) (query : string) (opts : Search.SearchOptions)
    (st st' : Search.IndexState) (r : list EnhancedSearchResult)
    (Hfuse : forall d q sc ms, fuse_match d q = Some (sc, ms) -> Qle 0 sc)
    (Hrun : Search.search fuse_match pos_nouns pos_adjectives pos_people pos_places
              iso_last_week iso_month_start db now fuel query opts st = Some (r, st')) :
  forall x, In x r -> Qle (_score x) (4 # 5).
Proof. exact (search_score_le _ _ _ _ _ _ _ _ _ Hfuse _ _ _ _ _ _ Hrun). Qed.

Lemma search_scores_bounded_witness :
  exists r st', search_zed 1 "zed" Search.noOptions = Some (r, st') /\
    forall x, In x r -> Qle (_score x) (4 # 5).
Proof.
  destruct (search_zed 1 "zed" Search.noOptions) as [[r st']|] eqn:Hrun;
    [|vm_compute in Hrun; discriminate].
  exists r, st'. split; [reflexivity|].
  refine (search_scores_bounded fuse_065 (fun _ => []) (fun _ => []) (fun _ => [])
            (fun _ => []) "" "" (fun _ => None) 0%Z 1 "zed" Search.noOptions
            zed_state st' r _ Hrun).
  intros d q sc ms H. unfold fuse_065 in H. inversion H. vm_compute. discriminate.
Defined.

(** X4. Given a list of collections, [search] returns only records of those
    collections, also through the nested searches of the NLP tier (for a
    well-formed index and a store with unique ids per collection). *)
Theorem search_respects_modules
    (fuse_match : SearchableItem -> string -> option (Q * list (option string)))
    (pos_nouns pos_adjectives pos_people pos_places : string -> list string)
    (iso_last_week iso_month_start : string)
    (db : string -> option (list SearchableItem)) (now : Z)
    (fuel : nat) (query : string) (opts : Search.SearchOptions) (ms : list string)
    (st st' : Search.IndexState) (r : list EnhancedSearchResult)
    (Hwf : wf_index (Search.fuseInstances st) = true)
    (Hdb : db_wf db = true)
    (Hms : Search.o_modules opts = Some ms)
    (Hrun : Search.search fuse_match pos_nouns pos_adjectives pos_people pos_places
              iso_last_week iso_month_start db now fuel query opts st = Some (r, st')) :
  forall x, In x r -> In (_type (r_item x)) ms.
Proof.
  exact (search_modules_gen _ _ _ _ _ _ _ _ _ Hdb ms fuel query opts st st' r
           (wf_index_WfIndex _ Hwf) Hms Hrun).
Qed.

Lemma search_respects_modules_witness :
  exists r st',
    search_zed 1 "zed" (Search.mkOptions (Some ["people"]) None None) = Some (r, st') /\
    forall x, In x r -> In (_type (r_item x)) ["people"].
Proof.
  destruct (search_zed 1 "zed" (Search.mkOptions (Some ["people"]) None None))
    as [[r st']|] eqn:Hrun; [|vm_compute in Hrun; discriminate].
  exists r, st'. split; [reflexivity|].
  exact (search_respects_modules fuse_065 (fun _ => []) (fun _ => []) (fun _ => [])
           (fun _ => []) "" "" (fun _ => None) 0%Z 1 "zed"
           (Search.mkOptions (Some ["people"]) None None) ["people"] zed_state st' r
           ltac:(vm_compute; reflexivity) ltac:(vm_compute; reflexivity) eq_refl Hrun).
Defined.

(** X5. The NLP tier returns nothing and leaves the index when the query
    yields no search terms; otherwise it runs the search of the joined terms
    with limit 10 and returns each of its (at most 10) results with its score
    times 0.6 and "nlp" appended to its matched fields. *)
Theorem searchWithNLP_results
    (fuse_match : SearchableItem -> string -> option (Q * list (option string)))
    (pos_nouns pos_adjectives pos_people pos_places : string -> list string)
    (iso_last_week iso_month_start : string)
    (db : string -> option (list SearchableItem)) (now : Z)
    (fuel : nat) (pq : NLP.SearchQuery) (mods : option (list string))
    (st st' : Search.IndexState) (nlp : list EnhancedSearchResult)
    (Hrun : Search.searchWithNLP
              (Search.search fuse_match pos_nouns pos_adjectives pos_people pos_places
                 iso_last_week iso_month_start db now fuel) pq mods st = Some (nlp, st')) :
  (NLP.searchTerms pq = [] /\ nlp = [] /\ st' = st) \/
  (exists inner, NLP.searchTerms pq <> [] /\
     Search.search fuse_match pos_nouns pos_adjectives pos_people pos_places
                 iso_last_week iso_month_start db now fuel
       (Search.join " " (NLP.searchTerms pq)) (Search.mkOptions mods (Some 10%Z) None) st
       = Some (inner, st') /\
     (length inner <= 10)%nat /\ nlp = map (Search.scale_tag (3 # 5) "nlp") inner).
Proof. exact (searchWithNLP_parts _ _ _ _ _ _ _ _ _ fuel pq mods st st' nlp Hrun). Qed.

Lemma searchWithNLP_results_witness :
  exists nlp st',
    Search.searchWithNLP
      (Search.search fuse_two nouns_zed (fun _ => []) (fun _ => []) (fun _ => [])
         "" "" (fun _ => None) 0%Z 1)
      (Search.parse nouns_zed (fun _ => []) (fun _ => []) (fun _ => []) "" "" "Zed")
      None two_people = Some (nlp, st') /\
    ((NLP.searchTerms (Search.parse nouns_zed (fun _ => []) (fun _ => []) (fun _ => [])
                         "" "" "Zed") = [] /\ nlp = [] /\ st' = two_people) \/
     (exists inner,
        NLP.searchTerms (Search.parse nouns_zed (fun _ => []) (fun _ => []) (fun _ => [])
                           "" "" "Zed") <> [] /\
        Search.search fuse_two nouns_zed (fun _ => []) (fun _ => []) (fun _ => [])
          "" "" (fun _ => None) 0%Z 1
          (Search.join " " (NLP.searchTerms (Search.parse nouns_zed (fun _ => []) (fun _ => [])
                                               (fun _ => []) "" "" "Zed")))
          (Search.mkOptions None (Some 10%Z) None) two_people = Some (inner, st') /\
        (length inner <= 10)%nat /\ nlp = map (Search.scale_tag (3 # 5) "nlp") inner)).
Proof.
  destruct (Search.searchWithNLP
      (Search.search fuse_two nouns_zed (fun _ => []) (fun _ => []) (fun _ => [])
         "" "" (fun _ => None) 0%Z 1)
      (Search.parse nouns_zed (fun _ => []) (fun _ => []) (fun _ => []) "" "" "Zed")
      None two_people) as [[nlp st']|] eqn:Hrun; [|vm_compute in Hrun; discriminate].
  exists nlp, st'. split; [reflexivity|].
  exact (searchWithNLP_results fuse_two nouns_zed (fun _ => []) (fun _ => [])
           (fun _ => []) "" "" (fun _ => None) 0%Z 1 _ None two_people st' nlp Hrun).
Defined.

(** X6. [searchByEntity] runs, for each entity in turn, the search of the
    entity with limit 5, and returns the concatenation of their (at most 5
    each) results, each with its score times 0.7 and the entity type appended
    to its matched fields. *)
Theorem searchByEntity_results
    (fuse_match : SearchableItem -> string -> option (Q * list (option string)))
    (pos_nouns pos_adjectives pos_people pos_places : string -> list string)
    (iso_last_week iso_month_start : string)
    (db : string -> option (list SearchableItem)) (now : Z)
    (fuel : nat) (entityType : string) (entities : list string)
    (st st' : Search.IndexState) (r : list EnhancedSearchResult)
    (Hrun : Search.searchByEntity
              (Search.search fuse_match pos_nouns pos_adjectives pos_people pos_places
                 iso_last_week iso_month_start db now fuel) entityType entities st
            = Some (r, st')) :
  exists rss,
    Forall2 (fun e rs => exists s s',
               Search.search fuse_match pos_nouns pos_adjectives pos_people pos_places
                 iso_last_week iso_month_start db now fuel
                 e (Search.mkOptions None (Some 5%Z) None) s = Some (rs, s') /\
               (length rs <= 5)%nat) entities rss /\
    r = concat (map (map (Search.scale_tag (7 # 10) entityType)) rss).
Proof. exact (searchByEntity_parts _ _ _ _ _ _ _ _ _ fuel entityType entities st st' r Hrun). Qed.

Lemma searchByEntity_results_witness :
  exists r st',
    Search.searchByEntity
      (Search.search fuse_065 (fun _ => []) (fun _ => []) (fun _ => []) (fun _ => [])
         "" "" (fun _ => None) 0%Z 1) "people" ["zed"; "ann"] zed_state = Some (r, st') /\
    exists rss,
      Forall2 (fun e rs => exists s s',
                 Search.search fuse_065 (fun _ => []) (fun _ => []) (fun _ => [])
                   (fun _ => []) "" "" (fun _ => None) 0%Z 1
                   e (Search.mkOptions None (Some 5%Z) None) s = Some (rs, s') /\
                 (length rs <= 5)%nat) ["zed"; "ann"] rss /\
      r = concat (map (map (Search.scale_tag (7 # 10) "people")) rss).
Proof.
  destruct (Search.searchByEntity
      (Search.search fuse_065 (fun _ => []) (fun _ => []) (fun _ => []) (fun _ => [])
         "" "" (fun _ => None) 0%Z 1) "people" ["zed"; "ann"] zed_state)
    as [[r st']|] eqn:Hrun; [|vm_compute in Hrun; discriminate].
  exists r, st'. split; [reflexivity|].
  exact (searchByEntity_results fuse_065 (fun _ => []) (fun _ => []) (fun _ => [])
           (fun _ => []) "" "" (fun _ => None) 0%Z 1 "people" ["zed"; "ann"]
           zed_state st' r Hrun).
Defined.

(** X7. [searchByFilters] returns the results of the location search
    (limit 10, when the location filter is a non-empty string), each scaled
    by 0.8 and tagged "location", followed by those of the person search over
    the "people" collection (limit 5, when the person filter is a non-empty
    string, run on the index the first search left), each scaled by 0.9 and
    tagged "person"; every person hit is a record of "people" (for a
    well-formed index and record store). *)
Theorem searchByFilters_results
    (fuse_match : SearchableItem -> string -> option (Q * list (option string)))
    (pos_nouns pos_adjectives pos_people pos_places : string -> list string)
    (iso_last_week iso_month_start : string)
    (db : string -> option (list SearchableItem)) (now : Z)
    (fuel : nat) (filters : NLP.Filters)
    (st st' : Search.IndexState) (r : list EnhancedSearchResult)
    (Hwf : wf_index (Search.fuseInstances st) = true)
    (Hdb : db_wf db = true)
    (Hrun : Search.searchByFilters
              (Search.search fuse_match pos_nouns pos_adjectives pos_people pos_places
                 iso_last_week iso_month_start db now fuel) filters st = Some (r, st')) :
  exists lr pr s1,
    r = app (map (Search.scale_tag (4 # 5) "location") lr)
            (map (Search.scale_tag (9 # 10) "person") pr) /\
    match Search.truthy (NLP.f_location filters) with
    | Some loc => Search.search fuse_match pos_nouns pos_adjectives pos_people pos_places
                 iso_last_week iso_month_start db now fuel
                    loc (Search.mkOptions None (Some 10%Z) None) st = Some (lr, s1) /\
                  (length lr <= 10)%nat
    | None => lr = [] /\ s1 = st
    end /\
    match Search.truthy (NLP.f_person filters) with
    | Some p => Search.search fuse_match pos_nouns pos_adjectives pos_people pos_places
                 iso_last_week iso_month_start db now fuel
                  p (Search.mkOptions (Some ["people"]) (Some 5%Z) None) s1 = Some (pr, st') /\
                (length pr <= 5)%nat /\ forall y, In y pr -> _type (r_item y) = "people"
    | None => pr = [] /\ st' = s1
    end.
Proof.
  exact (searchByFilters_parts _ _ _ _ _ _ _ _ _ Hdb fuel filters st st' r
           (wf_index_WfIndex _ Hwf) Hrun).
Qed.

Lemma searchByFilters_results_witness :
  exists r st',
    Search.searchByFilters
      (Search.search fuse_065 (fun _ => []) (fun _ => []) (fun _ => []) (fun _ => [])
         "" "" (fun _ => None) 0%Z 1) kz_filters zed_state = Some (r, st') /\
    exists lr pr,
      r = app (map (Search.scale_tag (4 # 5) "location") lr)
              (map (Search.scale_tag (9 # 10) "person") pr) /\
      (length lr <= 10)%nat /\ (length pr <= 5)%nat.
Proof.
  destruct (Search.searchByFilters
      (Search.search fuse_065 (fun _ => []) (fun _ => []) (fun _ => []) (fun _ => [])
         "" "" (fun _ => None) 0%Z 1) kz_filters zed_state)
    as [[r st']|] eqn:Hrun; [|vm_compute in Hrun; discriminate].
  exists r, st'. split; [reflexivity|].
  destruct (searchByFilters_results fuse_065 (fun _ => []) (fun _ => []) (fun _ => [])
              (fun _ => []) "" "" (fun _ => None) 0%Z 1 kz_filters zed_state st' r
              ltac:(vm_compute; reflexivity) ltac:(vm_compute; reflexivity) Hrun)
    as [lr [pr [s1 [Hr [Hl Hp]]]]].
  exists lr, pr. split; [exact Hr|].
  cbn in Hl, Hp. destruct Hl as [_ Hl]. destruct Hp as [_ [Hp _]]. split; assumption.
Defined.

(** X8. [semanticSearch] returns each record at most once, in order of
    non-increasing score, and only records of the requested collections. *)
Theorem semanticSearch_results
    (fuse_match : SearchableItem -> string -> option (Q * list (option string)))
    (pos_nouns pos_adjectives pos_people pos_places : string -> list string)
    (iso_last_week iso_month_start : string)
    (db : string -> option (list SearchableItem)) (now : Z)
    (fuel : nat) (query : string) (modules : option (list string))
    (st st' : Search.IndexState) (r : list EnhancedSearchResult)
    (Hrun : Search.semanticSearch fuse_match pos_nouns pos_adjectives pos_people pos_places
              iso_last_week iso_month_start db now fuel query modules st = Some (r, st')) :
  NoDup (map pair_of r) /\
  Sorted (fun a b => Qle (_score b) (_score a)) r /\
  forall x, In x r -> Search.module_selected modules (_type (r_item x)) = true.
Proof. exact (semanticSearch_shape _ _ _ _ _ _ _ _ _ fuel query modules st st' r Hrun). Qed.

Lemma semanticSearch_results_witness :
  exists r st',
    Search.semanticSearch fuse_two nouns_zed (fun _ => []) nouns_zed (fun _ => [])
      "" "" (fun _ => None) 0%Z 3 "Zed" None two_people = Some (r, st') /\
    NoDup (map pair_of r).
Proof.
  destruct (Search.semanticSearch fuse_two nouns_zed (fun _ => []) nouns_zed (fun _ => [])
      "" "" (fun _ => None) 0%Z 3 "Zed" None two_people)
    as [[r st']|] eqn:Hrun; [|vm_compute in Hrun; discriminate].
  exists r, st'. split; [reflexivity|].
  exact (proj1 (semanticSearch_results fuse_two nouns_zed (fun _ => []) nouns_zed
                  (fun _ => []) "" "" (fun _ => None) 0%Z 3 "Zed" None two_people st' r
                  Hrun)).
Defined.

(** X9. A completed [buildSearchIndex] sets the update time to the build's
    clock and holds exactly one fuzzy structure per collection whose read
    succeeds, built over all its processed records; nothing of the previous
    index survives. *)
Theorem buildSearchIndex_contents
    (db : string -> option (list SearchableItem)) (now : Z) (st : Search.IndexState) :
  Search.lastIndexUpdate (Search.buildSearchIndex db now st) = now /\
  forall s docs,
    In (s, docs) (Search.fuseInstances (Search.buildSearchIndex db now st)) <->
    In s Search.stores /\
    exists items, db s = Some items /\ docs = map (Search.processItem s) items.
Proof.
  rewrite buildSearchIndex_eq. split; [reflexivity|]. intros s docs.
  cbn [Search.fuseInstances].
  assert (Hnd : NoDup (map fst (loaded db Search.stores [])))
    by (apply loaded_nodup; constructor).
  split.
  - intros H.
    assert (Hs : In s Search.stores).
    { apply (in_map fst) in H. apply loaded_keys in H as [H|[]]. exact H. }
    split; [exact Hs|].
    apply (map_get_In s docs _ Hnd) in H.
    destruct (db s) as [items|] eqn:E.
    + exists items. split; [reflexivity|].
      rewrite (loaded_present db s items Search.stores [] E Hs) in H. now inversion H.
    + rewrite (loaded_absent db s Search.stores [] (or_introl E)) in H. discriminate.
  - intros [Hs [items [E ->]]]. apply (map_get_In s _ _ Hnd).
    exact (loaded_present db s items Search.stores [] E Hs).
Qed.

(** X10. The searchable text of a record is lower-case and contains, in
    lower case, each of its non-empty title, name, description, content,
    location and tags. *)
Theorem createSearchableText_lower_contains (item : SearchableItem) (s : string)
    (Hs : title item = Some s \/ name item = Some s \/ description item = Some s \/
          content item = Some s \/ location item = Some s \/ In s (tags item))
    (Hne : s <> "") :
  JS.includes (Search.createSearchableText item) (JS.toLowerCase s) = true /\
  JS.toLowerCase (Search.createSearchableText item) = Search.createSearchableText item.
Proof.
  unfold Search.createSearchableText. cbv zeta.
  assert (Hin : In s (filter (fun part => negb (String.eqb part ""))
                        (app [JS.or_str (title item) ""; JS.or_str (name item) "";
                              JS.or_str (description item) ""; JS.or_str (content item) "";
                              JS.or_str (location item) ""] (tags item)))).
  { apply filter_In. split.
    - apply in_or_app.
      destruct Hs as [H|[H|[H|[H|[H|H]]]]];
        try (left; rewrite H, (or_str_nonempty s Hne); simpl; auto 7).
      now right.
    - destruct (String.eqb_spec s ""); [contradiction|reflexivity]. }
  destruct (join_In " " s _ Hin) as [a [c ->]]. split.
  - rewrite !toLowerCase_app. apply includes_mid.
  - apply toLowerCase_idem.
Qed.

Lemma createSearchableText_lower_contains_witness :
  JS.includes (Search.createSearchableText kyoto_item) (JS.toLowerCase "Japan") = true /\
  JS.toLowerCase (Search.createSearchableText kyoto_item) = Search.createSearchableText kyoto_item.
Proof.
  apply (createSearchableText_lower_contains kyoto_item "Japan").
  - right; right; right; right; left; reflexivity.
  - discriminate.
Defined.

Section SnippetFacts.

Lemma count_matches_zero (qw : list string) (sentence : string) :
  forallb (fun w => negb (JS.includes (JS.toLowerCase sentence) w)) qw = true ->
  count_matches qw sentence = 0%nat.
Proof.
  unfold count_matches. induction qw as [|w qw IH]; simpl; [reflexivity|].
  intros H. apply andb_true_iff in H as [H1 H2].
  destruct (JS.includes (JS.toLowerCase sentence) w); [discriminate|]. now apply IH.
Qed.

Lemma best_sentence_none (content query : string) :
  forallb (fun sentence =>
             forallb (fun w => negb (JS.includes (JS.toLowerCase sentence) w))
                     (JS.split_char " " (JS.toLowerCase query)))
          (JS.split_sentences content) = true ->
  best_sentence content query = "".
Proof.
  unfold best_sentence. cbv zeta.
  generalize (JS.split_char " " (JS.toLowerCase query)) as qw.
  generalize (JS.split_sentences content) as l.
  induction l as [|sentence l IH]; intros qw H; [reflexivity|].
  cbn [forallb] in H. apply andb_true_iff in H as [H1 H2].
  cbn [fold_left]. rewrite (count_matches_zero qw sentence H1). cbn. now apply IH.
Qed.

End SnippetFacts.

(** X11. When no word of the query occurs in any sentence of the record's
    text (description, else content, title or name), [generateSnippet]
    returns the empty string. *)
Theorem generateSnippet_no_match (item : SearchableItem) (query : string)
    (Hnone : forallb (fun sentence =>
                        forallb (fun w => negb (JS.includes (JS.toLowerCase sentence) w))
                                (JS.split_char " " (JS.toLowerCase query)))
                     (JS.split_sentences (snippet_content item)) = true) :
  generateSnippet item query = "".
Proof. unfold generateSnippet. rewrite (best_sentence_none _ _ Hnone). reflexivity. Qed.

Lemma generateSnippet_no_match_witness : generateSnippet calm_item "museum" = "".
Proof. apply generateSnippet_no_match. vm_compute. reflexivity. Defined.

(** X12. [extractSearchTerms] returns distinct terms, each lower-case and
    longer than two characters. *)
Theorem extractSearchTerms_distinct_lower
    (pos_nouns pos_adjectives : string -> list string) (text : string) :
  NoDup (NLP.extractSearchTerms pos_nouns pos_adjectives text) /\
  forall t, In t (NLP.extractSearchTerms pos_nouns pos_adjectives text) ->
    (2 < String.length t)%nat /\ JS.toLowerCase t = t.
Proof.
  unfold NLP.extractSearchTerms. cbv zeta. split.
  - apply set_add_all_NoDup, set_add_all_NoDup. constructor.
  - intros t H. apply set_add_all_In in H as [H|H];
      [|apply set_add_all_In in H as [H|[]]];
      apply in_map_iff in H as [u [<- Hu]]; apply filter_In in Hu as [_ Hu];
      apply Nat.ltb_lt in Hu; split;
      solve [rewrite toLowerCase_length; exact Hu | apply toLowerCase_idem].
Qed.

(** X13. [generateTags] returns at most 10 distinct tags, none of them
    empty. *)
Theorem generateTags_distinct_nonempty
    (pos_nouns : string -> list string) (text : string) (type_ : option string) :
  (length (NLP.generateTags pos_nouns text type_) <= 10)%nat /\
  NoDup (NLP.generateTags pos_nouns text type_) /\
  forall t, In t (NLP.generateTags pos_nouns text type_) -> t <> "".
Proof.
  unfold NLP.generateTags.
  set (l := NLP.set_add_all (NLP.tag_sequence pos_nouns text type_) []).
  assert (Hnd : NoDup l) by (apply set_add_all_NoDup; constructor).
  split; [apply firstn_le_length|split].
  - apply (NoDup_app_remove_r _ (skipn 10 l)). now rewrite firstn_skipn.
  - intros t Ht.
    assert (Hl : In t l)
      by (rewrite <- (firstn_skipn 10 l); apply in_or_app; now left).
    unfold l in Hl. apply set_add_all_In in Hl as [H|[]].
    unfold NLP.tag_sequence in H.
    apply in_app_or in H as [H|H].
    + apply in_map_iff in H as [u [<- Hu]]. apply filter_In in Hu as [_ Hu].
      unfold NLP.qualifying_noun in Hu. apply andb_true_iff in Hu as [Hu _].
      apply Nat.ltb_lt in Hu. intros He.
      pose proof (toLowerCase_length u) as Hlen. rewrite He in Hlen. simpl in Hlen. lia.
    + apply in_app_or in H as [H|H].
      * apply topics_labels in H. intros ->. simpl in H. intuition discriminate.
      * apply in_app_or in H as [H|H].
        -- destruct type_ as [ty|]; [|destruct H].
           destruct (String.eqb_spec ty ""); [destruct H|].
           destruct H as [<-|[]]. exact n.
        -- apply categories_labels in H. intros ->. simpl in H. intuition discriminate.
Qed.

(** X14. The enrichment step of the search bar never returns fewer results
    than the search gave it, and leaves them untouched when there are
    already 5 or more of them or the query has at most 8 characters. *)
Theorem enrich_never_shrinks {A : Type} (searchAgain : string -> option (list A))
    (query : string) (searchResults : list A) (o : Enrichment.FetchOutcome) :
  (length searchResults <= length (Enrichment.enrich searchAgain query searchResults o))%nat /\
  ((5 <= length searchResults)%nat \/ (String.length query <= 8)%nat ->
   Enrichment.enrich searchAgain query searchResults o = searchResults).
Proof.
  unfold Enrichment.enrich. split.
  - destruct (Nat.ltb 8 (String.length query) && Nat.ltb (length searchResults) 5);
      [|lia].
    destruct (Enrichment.aiEnhancedSearch query o) as [a|]; [|lia].
    destruct (Enrichment.ai_searchTerms a) as [[|t ts]|]; try lia.
    destruct (searchAgain (Search.join " " (t :: ts))) as [er|]; [|lia].
    destruct (Nat.ltb_spec (length searchResults) (length er)); lia.
  - intros H.
    destruct (Nat.ltb_spec 8 (String.length query)), (Nat.ltb_spec (length searchResults) 5);
      cbn [andb]; try reflexivity; lia.
Qed.

Lemma enrich_never_shrinks_witness :
  Enrichment.enrich (fun _ => Some [1; 2; 3]%nat) "temple kyoto" [7; 8; 9; 10; 11]%nat
    Enrichment.NetworkError = [7; 8; 9; 10; 11]%nat.
Proof.
  apply (proj2 (enrich_never_shrinks (fun _ => Some [1; 2; 3]%nat) "temple kyoto"
                  [7; 8; 9; 10; 11]%nat Enrichment.NetworkError)).
  left. simpl. lia.
Defined.

(** Claim C1. For a well-formed index (one fuzzy structure per collection,
    ids unique within a collection) and a store that keeps ids unique, a
    call of [search] that returns merges the candidates of the fuzzy tier
    and of the NLP tier into one list [full] sorted by non-increasing score,
    with one entry per (collection, id) pair, every entry a candidate whose
    score is the largest among the candidates for its pair, and every
    candidate's key represented; the result is [slice(0, limit)] of [full].
    So it has at most [limit] entries when [limit >= 0] and never two entries
    for the same pair. *)
Theorem search_fused_results
    (fuse_match : SearchableItem -> string -> option (Q * list (option string)))
    (pos_nouns pos_adjectives pos_people pos_places : string -> list string)
    (iso_last_week iso_month_start : string)
    (db : string -> option (list SearchableItem)) (now : Z)
    (fuel : nat) (query : string) (opts : Search.SearchOptions)
    (st st' : Search.IndexState) (r : list EnhancedSearchResult)
    (Hwf : wf_index (Search.fuseInstances st) = true)
    (Hdb : db_wf db = true)
    (Hrun : Search.search fuse_match pos_nouns pos_adjectives pos_people pos_places
              iso_last_week iso_month_start db now (S fuel) query opts st
            = Some (r, st')) :
  ((0 <= Search.opt_limit opts)%Z ->
   (Z.of_nat (length r) <= Search.opt_limit opts)%Z) /\
  NoDup (map pair_of r) /\
  exists nlpResults full,
    Search.searchWithNLP
      (Search.search fuse_match pos_nouns pos_adjectives pos_people pos_places
         iso_last_week iso_month_start db now fuel)
      (Search.parse pos_nouns pos_adjectives pos_people pos_places
         iso_last_week iso_month_start query)
      (Search.o_modules opts) (Search.refreshed db now st) = Some (nlpResults, st') /\
    r = Search.slice0 (Search.opt_limit opts) full /\
    NoDup (map pair_of full) /\
    Sorted (fun a b => Qle (_score b) (_score a)) full /\
    let cands := app (fuzzy_candidates fuse_match query (Search.o_modules opts)
                        (Search.opt_limit opts) (Search.opt_threshold opts)
                        (Search.fuseInstances (Search.refreshed db now st)))
                     nlpResults in
    (forall x, In x full ->
       In x cands /\
       forall c, In c cands -> pair_of c = pair_of x -> Qle (_score c) (_score x)) /\
    (forall c, In c cands ->
       exists x, In x full /\ Search.key_of x = Search.key_of c /\ Qle (_score c) (_score x)).
Proof.
  cbn [Search.search] in Hrun.
  unfold Search.bind, Search.refresh_index, Search.get, Search.put, Search.ret in Hrun.
  set (srch := Search.search fuse_match pos_nouns pos_adjectives pos_people pos_places
                 iso_last_week iso_month_start db now fuel) in *.
  set (pq := Search.parse pos_nouns pos_adjectives pos_people pos_places
               iso_last_week iso_month_start query) in *.
  unfold Search.bind in Hrun.
  destruct (Search.searchWithNLP srch pq (Search.o_modules opts) (Search.refreshed db now st))
    as [[nlp st'']|] eqn:Hnlp; [|discriminate].
  inversion Hrun; subst r st''. clear Hrun.
  set (insts := Search.fuseInstances (Search.refreshed db now st)).
  assert (Hwi : WfIndex insts)
    by (apply refreshed_WfIndex; [exact Hdb|now apply wf_index_WfIndex]).
  set (fc := fuzzy_candidates fuse_match query (Search.o_modules opts)
               (Search.opt_limit opts) (Search.opt_threshold opts) insts).
  destruct (fuzzy_tier_keyed fuse_match query (Search.o_modules opts)
              (Search.opt_limit opts) (Search.opt_threshold opts) insts Hwi)
    as [Htier Hkeys].
  set (R := Search.fused fuse_match query (Search.o_modules opts) (Search.opt_limit opts)
              (Search.opt_threshold opts) (Search.refreshed db now st) nlp).
  assert (Hinv : MergeInv (app fc nlp) R).
  { unfold R, Search.fused. fold insts. rewrite Htier.
    apply merge_fold_MergeInv. now apply keyed_MergeInv. }
  destruct Hinv as [Rnd [Rent Rcomp]].
  set (S0 := Search.sort_desc (Search.map_values R)).
  assert (Hperm : Permutation S0 (map snd R)) by apply sort_by_perm.
  assert (HS0nd : NoDup (map pair_of S0)).
  { apply (Permutation_NoDup (Permutation_map pair_of (Permutation_sym Hperm))).
    apply (NoDup_map_coarser Search.key_of).
    + intros x y _ _ H. now apply key_of_pair.
    + rewrite map_map.
      rewrite (map_ext_in _ fst); [exact Rnd|].
      intros [k v] Hkv. simpl. symmetry. apply (Rent k v Hkv). }
  assert (HS0max : forall x, In x S0 ->
            In x (app fc nlp) /\
            forall c, In c (app fc nlp) -> pair_of c = pair_of x -> Qle (_score c) (_score x)).
  { intros x Hx.
    apply (Permutation_in _ Hperm) in Hx.
    apply in_map_iff in Hx as [[k v] [Hv Hkv]]. simpl in Hv. subst v.
    destruct (Rent k x Hkv) as [Hk [HxP Hb]].
    split; [exact HxP|].
    intros c Hc Hp. apply Hb; [exact Hc|].
    rewrite Hk. now apply key_of_pair. }
  destruct (slice0_firstn (Search.opt_limit opts) S0) as [n [Hsl Hn]].
  split; [|split].
  - intros Hl. specialize (Hn Hl). rewrite Hsl, length_firstn. lia.
  - rewrite Hsl, <- firstn_map. now apply firstn_NoDup.
  - exists nlp, S0. split; [reflexivity|]. split; [reflexivity|].
    split; [exact HS0nd|]. split; [apply sort_desc_sorted|].
    cbv zeta. split; [exact HS0max|].
    intros c Hc. apply Rcomp in Hc as Hkc.
    apply in_map_iff in Hkc as [[k v] [Hk Hkv]]. simpl in Hk.
    destruct (Rent k v Hkv) as [Hkv' [_ Hb]].
    exists v. split; [|split].
    + apply (Permutation_in _ (Permutation_sym Hperm)). now apply (in_map snd) in Hkv.
    + congruence.
    + apply Hb; [exact Hc|now symmetry].
Qed.

Lemma search_fused_results_witness :
  wf_index (Search.fuseInstances zed_state) = true /\ db_wf (fun _ => None) = true /\
  exists r st', search_zed 1 "zed" Search.noOptions = Some (r, st') /\
    NoDup (map pair_of r) /\
    (Z.of_nat (length r) <= Search.opt_limit Search.noOptions)%Z.
Proof.
  split; [vm_compute; reflexivity|]. split; [vm_compute; reflexivity|].
  destruct (search_zed 1 "zed" Search.noOptions) as [[r st']|] eqn:Hrun;
    [|vm_compute in Hrun; discriminate].
  exists r, st'. split; [reflexivity|].
  destruct (search_fused_results fuse_065 (fun _ => []) (fun _ => []) (fun _ => [])
              (fun _ => []) "" "" (fun _ => None) 0%Z 0 "zed" Search.noOptions
              zed_state st' r ltac:(vm_compute; reflexivity) ltac:(vm_compute; reflexivity)
              Hrun) as [Hl [Hnd _]].
  split; [exact Hnd|]. apply Hl. vm_compute. discriminate.
Defined.

(** C1 counterexample: with [limit = -1], [slice(0, -1)] drops only the
    last entry, so the search for "jo" over two matching people returns one
    entry, more than the limit. The query is too short to give search terms
    even to a tagger that reads every word as a match, so the NLP tier is
    empty. *)
Lemma search_negative_limit_exceeds :
  exists r st',
    Search.search fuse_ci every_word every_word (fun _ => []) (fun _ => []) "" ""
      (fun _ => None) 0%Z 1 "jo" (Search.mkOptions None (Some (-1)%Z) None) jo_state
      = Some (r, st') /\
    map pair_of r = [("people", "p1")] /\
    (Search.opt_limit (Search.mkOptions None (Some (-1)%Z) None) < Z.of_nat (length r))%Z.
Proof.
  do 2 eexists. split; [vm_compute; reflexivity|].
  split; vm_compute; reflexivity.
Qed.

Section VisibleFacts.
Local Open Scope list_scope.

Lemma loaded_contents (db : string -> option (list SearchableItem)) (ss : list string)
    (s : string) (docs : list SearchableItem) :
  In (s, docs) (loaded db ss []) <->
  In s ss /\ exists items, db s = Some items /\ docs = map (Search.processItem s) items.
Proof.
  assert (Hnd : NoDup (map fst (loaded db ss []))) by (apply loaded_nodup; constructor).
  split.
  - intros H.
    assert (Hs : In s ss).
    { apply (in_map fst) in H. apply loaded_keys in H as [H|[]]. exact H. }
    split; [exact Hs|].
    apply (map_get_In s docs _ Hnd) in H.
    destruct (db s) as [items|] eqn:E.
    + exists items. split; [reflexivity|].
      rewrite (loaded_present db s items ss [] E Hs) in H. now inversion H.
    + rewrite (loaded_absent db s ss [] (or_introl E)) in H. discriminate.
  - intros [Hs [items [E ->]]]. apply (map_get_In s _ _ Hnd).
    exact (loaded_present db s items ss [] E Hs).
Qed.

Lemma fuzzy_candidates_items
    (fuse_match : SearchableItem -> string -> option (Q * list (option string)))
    (q : string) (mods : option (list string)) (lim : Z) (th : Q)
    (insts : list (string * list SearchableItem)) (c : EnhancedSearchResult) :
  In c (fuzzy_candidates fuse_match q mods lim th insts) ->
  exists s docs, In (s, docs) insts /\ In (r_item c) docs.
Proof.
  intros H.
  destruct (fuzzy_candidates_origin fuse_match q mods lim th insts c H)
    as [[s docs] [fr [Hi [Hfr ->]]]].
  exists s, docs. split; [exact Hi|].
  exact (proj1 (fuse_search_docs fuse_match docs q lim) fr Hfr).
Qed.

End VisibleFacts.

(** C8 (corrected): [buildSearchIndex] mutates the live index in place and
    sets [lastIndexUpdate] only after its last read. In a single build, at
    the awaited read of the [(j+1)]-th collection ([j + 1] steps done), the
    index holds exactly the fuzzy structures of those of the first [j]
    collections whose read succeeded, with the old update time; a fuzzy tier
    run on it only returns records of those collections. A search that
    starts then and finds the old time stale starts a second build, whose
    first step clears the structures again. *)
Theorem buildSearchIndex_visible_states
    (db : string -> option (list SearchableItem)) (now : Z)
    (st : Search.IndexState) (j : nat) (Hj : (j <= length Search.stores)%nat) :
  let mid := Search.state_at_await db now (S j) st in
  Search.lastIndexUpdate mid = Search.lastIndexUpdate st /\
  (forall s docs,
     In (s, docs) (Search.fuseInstances mid) <->
     In s (firstn j Search.stores) /\
     exists items, db s = Some items /\ docs = map (Search.processItem s) items) /\
  (forall fuse_match q mods lim th c,
     In c (fuzzy_candidates fuse_match q mods lim th (Search.fuseInstances mid)) ->
     exists s items, In s (firstn j Search.stores) /\ db s = Some items /\
                     In (r_item c) (map (Search.processItem s) items)) /\
  (forall now', (Search.indexUpdateInterval < now' - Search.lastIndexUpdate st)%Z ->
     Search.refreshed db now' mid = Search.buildSearchIndex db now' mid /\
     Search.fuseInstances (Search.state_at_await db now' 1 mid) = []).
Proof.
  intros mid.
  assert (Hmid : mid = Search.mkState (loaded db (firstn j Search.stores) [])
                                      (Search.lastIndexUpdate st)).
  { unfold mid, Search.state_at_await, Search.build_steps.
    rewrite firstn_cons, firstn_app, length_map.
    replace (j - length Search.stores)%nat with 0%nat by lia.
    rewrite firstn_O, app_nil_r, firstn_map.
    exact (run_load_stores db (firstn j Search.stores)
             (Search.mkState [] (Search.lastIndexUpdate st))). }
  assert (Hin : forall s docs,
             In (s, docs) (Search.fuseInstances mid) <->
             In s (firstn j Search.stores) /\
             exists items, db s = Some items /\ docs = map (Search.processItem s) items)
    by (intros s docs; rewrite Hmid; apply loaded_contents).
  split; [now rewrite Hmid|]. split; [exact Hin|]. split.
  - intros fm q mods lim th c Hc.
    destruct (fuzzy_candidates_items fm q mods lim th _ c Hc) as [s [docs [Hsd Hc']]].
    apply Hin in Hsd as [Hs [items [E ->]]].
    exists s, items. auto.
  - intros now' Hstale. split.
    + unfold Search.refreshed. rewrite Hmid. cbn [Search.lastIndexUpdate].
      destruct (Z.ltb_spec Search.indexUpdateInterval (now' - Search.lastIndexUpdate st));
        [reflexivity|lia].
    + reflexivity.
Qed.

(** C8 counterexample: rebuilding a fully built index over an unchanged
    store, a search running at the second awaited read sees only the
    collection "travelPins": the collection "people", present in the old
    and in the new index, is missing. *)
Lemma buildSearchIndex_not_atomic :
  let mid := Search.state_at_await db_all 600000%Z 2 index_before in
  let after := Search.buildSearchIndex db_all 600000%Z index_before in
  Search.map_get "people" (Search.fuseInstances mid) = None /\
  Search.map_get "people" (Search.fuseInstances index_before) <> None /\
  Search.map_get "people" (Search.fuseInstances after) <> None.
Proof. vm_compute. split; [reflexivity|split; discriminate]. Qed.

Lemma buildSearchIndex_visible_states_witness :
  (1 <= length Search.stores)%nat /\
  Search.lastIndexUpdate (Search.state_at_await db_all 600000%Z 2 index_before) =
  Search.lastIndexUpdate index_before.
Proof.
  split; [simpl; lia|].
  apply (buildSearchIndex_visible_states db_all 600000%Z index_before 1).
  simpl; lia.
Defined.
